(** * jm::memory_signature: a byte-pattern matcher with wildcard positions

    Shallow embedding of [include/memory_signature.hpp].  The class owns a
    heap array through a [std::unique_ptr<unsigned char[]>], keeps a raw
    [_end] pointer into it and one wildcard byte.  Pointers, the heap and the
    objects themselves are modelled explicitly, because several member
    functions read a field of [other] after writing a field of [*this].
    The two masked signature constructors and [detail::find_wildcard_masked]
    are ill-formed when instantiated and have no run; they are left out, and
    the derivation [detail::find_wildcard] is studied with comparators a
    caller supplies. *)

From Stdlib Require Import ZArith List Bool Lia.
From stdpp Require Import base option list gmap.

Local Open Scope Z_scope.

(** ** Outcomes of a C++ evaluation *)

(** The exceptions the header throws ([std::range_error],
    [std::invalid_argument]) and the one [new] throws. *)
Inductive exn : Type :=
| range_error
| invalid_argument
| bad_alloc.

(** A computation returns, throws, or has undefined behaviour. *)
Inductive outcome (A : Type) : Type :=
| Ok (a : A)
| Throw (e : exn)
| Undefined.

Arguments Ok {A} a.
Arguments Throw {A} e.
Arguments Undefined {A}.

Definition obind {A B} (o : outcome A) (f : A -> outcome B) : outcome B :=
  match o with
  | Ok a => f a
  | Throw e => Throw e
  | Undefined => Undefined
  end.

(** ** Bytes, pointers, heap *)

(** [static_cast<unsigned char>(x)] on an integral value. *)
Definition to_uchar (x : Z) : Z := x mod 256.

(** A pointer is null or an offset into an allocated array. *)
Inductive ptr : Type :=
| Null
| Ptr (b : nat) (off : Z).

Definition ptr_eqb (p q : ptr) : bool :=
  match p, q with
  | Null, Null => true
  | Ptr b i, Ptr c j => Nat.eqb b c && Z.eqb i j
  | _, _ => false
  end.

(** [p + n].  The class only ever adds to the pointer a [new] has just
    returned, which is never null. *)
Definition ptr_add (p : ptr) (n : Z) : ptr :=
  match p with
  | Null => Null
  | Ptr b i => Ptr b (i + n)
  end.

(** [e - p]: defined for two pointers into the same array and for two null
    pointers, undefined otherwise. *)
Definition ptr_diff (e p : ptr) : outcome Z :=
  match e, p with
  | Null, Null => Ok 0
  | Ptr b i, Ptr c j => if Nat.eqb b c then Ok (i - j) else Undefined
  | _, _ => Undefined
  end.

(** The three data members of the class. *)
Record memory_signature : Type := mk_signature {
  _pattern : ptr;
  _end : ptr;
  _wildcard : Z
}.

(** The heap is the list of arrays ever allocated ([None] once released);
    an array is never handed out twice.  Objects live in a store of their
    own, named by numbers. *)
Record state : Type := mk_state {
  heap : list (option (list Z));
  objs : gmap nat memory_signature
}.

(** ** The state-and-outcome monad *)

Definition M (A : Type) : Type := state -> outcome A * state.

Definition ret {A} (a : A) : M A := fun s => (Ok a, s).

Definition bind {A B} (m : M A) (f : A -> M B) : M B :=
  fun s =>
    match m s with
    | (Ok a, s') => f a s'
    | (Throw e, s') => (Throw e, s')
    | (Undefined, s') => (Undefined, s')
    end.

Definition throw {A} (e : exn) : M A := fun s => (Throw e, s).

Definition undefined {A} : M A := fun s => (Undefined, s).

Definition lift {A} (o : outcome A) : M A := fun s => (o, s).

(** Stack unwinding: when [m] throws, [cleanup] runs and the exception
    propagates. *)
Definition unwind {A} (m : M A) (cleanup : M unit) : M A :=
  fun s =>
    match m s with
    | (Throw e, s') =>
        match cleanup s' with
        | (Ok _, s'') => (Throw e, s'')
        | (Throw e', s'') => (Throw e', s'')
        | (Undefined, s'') => (Undefined, s'')
        end
    | r => r
    end.

Declare Scope cpp_scope.
Delimit Scope cpp_scope with cpp.
Notation "'let*' x ':=' m 'in' k" := (bind m (fun x => k))
  (at level 10, x name, m at level 100, k at level 200) : cpp_scope.
Notation "'let*' '_' ':=' m 'in' k" := (bind m (fun _ => k))
  (at level 10, m at level 100, k at level 200) : cpp_scope.
Local Open Scope cpp_scope.

(** ** Heap primitives *)

(** [new unsigned char[n]]: a fresh array of [n] cells.  A negative [n]
    stands for a [size_t] beyond what [new] accepts. *)
Definition new_array (n : Z) : M ptr :=
  fun s =>
    if n <? 0 then (Throw bad_alloc, s)
    else (Ok (Ptr (length (heap s)) 0),
          mk_state (heap s ++ [Some (replicate (Z.to_nat n) 0)]) (objs s)).

(** [delete[] p], as the deleter of the unique_ptr runs it. *)
Definition delete_array (p : ptr) : M unit :=
  fun s =>
    match p with
    | Null => (Ok tt, s)
    | Ptr b off =>
        match heap s !! b with
        | Some (Some _) =>
            if off =? 0 then (Ok tt, mk_state (<[b := None]> (heap s)) (objs s))
            else (Undefined, s)
        | _ => (Undefined, s)
        end
    end.

(** [*p = v] through an [unsigned char*]. *)
Definition store (p : ptr) (v : Z) : M unit :=
  fun s =>
    match p with
    | Null => (Undefined, s)
    | Ptr b off =>
        match heap s !! b with
        | Some (Some cells) =>
            if (0 <=? off) && (off <? Z.of_nat (length cells)) then
              (Ok tt,
               mk_state (<[b := Some (<[Z.to_nat off := v]> cells)]> (heap s))
                        (objs s))
            else (Undefined, s)
        | _ => (Undefined, s)
        end
    end.

(** The bytes of the range [[first, last)]; the standard algorithms require
    it to be a valid range. *)
Definition read_range (first last : ptr) : M (list Z) :=
  fun s =>
    match first, last with
    | Null, Null => (Ok [], s)
    | Ptr b i, Ptr c j =>
        match heap s !! b with
        | Some (Some cells) =>
            if Nat.eqb b c && (0 <=? i) && (i <=? j)
               && (j <=? Z.of_nat (length cells))
            then (Ok (take (Z.to_nat (j - i)) (drop (Z.to_nat i) cells)), s)
            else (Undefined, s)
        | _ => (Undefined, s)
        end
    | _, _ => (Undefined, s)
    end.

(** ** Object primitives *)

Definition get_obj (this : nat) : M memory_signature :=
  fun s =>
    match objs s !! this with
    | Some o => (Ok o, s)
    | None => (Undefined, s)
    end.

Definition put_obj (this : nat) (o : memory_signature) : M unit :=
  fun s => (Ok tt, mk_state (heap s) (<[this := o]> (objs s))).

Definition set_pattern (this : nat) (p : ptr) : M unit :=
  let* o := get_obj this in
  put_obj this (mk_signature p (_end o) (_wildcard o)).

Definition set_end (this : nat) (e : ptr) : M unit :=
  let* o := get_obj this in
  put_obj this (mk_signature (_pattern o) e (_wildcard o)).

Definition set_wildcard (this : nat) (w : Z) : M unit :=
  let* o := get_obj this in
  put_obj this (mk_signature (_pattern o) (_end o) w).

(** ** Wildcard derivation (namespace detail) *)

Module detail.

(** [std::bitset<256>] as the integer whose binary digits are the flags.
    [bits[i] = v] writes one flag; an index outside the set is not
    checked by [operator[]]. *)
Definition bitset_assign (bits i : Z) (v : bool) : outcome Z :=
  if (0 <=? i) && (i <? 256) then
    Ok (if v then Z.setbit bits i else Z.clearbit bits i)
  else Undefined.

(** First loop of [find_wildcard]: the flag of each element [x] is
    assigned the value of [cmp] at [x].  [cmp] is a closure that may carry
    state of type [C]. *)
Fixpoint mark_bits {C : Type} (cmp : C -> Z -> outcome (bool * C)) (c : C)
    (first : list Z) (bits : Z) : outcome Z :=
  match first with
  | [] => Ok bits
  | x :: rest =>
      obind (cmp c x) (fun r =>
      obind (bitset_assign bits x (fst r)) (fun bits' =>
      mark_bits cmp (snd r) rest bits'))
  end.

(** Second loop: [for (i = 0; i < 256; ++i) if (!bits[i]) return i], with
    [n] the number of iterations left. *)
Fixpoint first_clear (bits i : Z) (n : nat) : option Z :=
  match n with
  | O => None
  | S n' => if Z.testbit bits i then first_clear bits (i + 1) n' else Some i
  end.

Definition find_wildcard {C : Type} (first : list Z)
    (cmp : C -> Z -> outcome (bool * C)) (c : C) : outcome Z :=
  obind (mark_bits cmp c first 0) (fun bits =>
  match first_clear bits 0 256 with
  | Some i => Ok (to_uchar i)
  | None => Throw range_error
  end).

(** [find_wildcard_masked] is not embedded: it cannot be instantiated.  Its
    template parameter [Cmp] occurs in none of its function parameters, so
    no call can deduce it, and the closure it hands to [find_wildcard] takes
    no parameter while [find_wildcard] calls its comparator with the
    element as argument. *)

End detail.

(** ** Standard algorithms used by the class *)

(** [std::copy(first, last, d)] into an [unsigned char] array; [src] holds
    the source elements as the assignment to the destination cell converts
    them. *)
Fixpoint copy_to (src : list Z) (d : ptr) : M unit :=
  match src with
  | [] => ret tt
  | x :: rest => let* _ := store d x in copy_to rest (ptr_add d 1)
  end.

(** One window of [std::search]: the needle is exhausted ([Hit]), the
    haystack is exhausted first ([Exhausted]) or the predicate fails
    ([Miss]). *)
Inductive window : Type := Hit | Exhausted | Miss.

Fixpoint scan_window (p : Z -> Z -> bool) (it s_it : list Z) {struct s_it}
    : window :=
  match s_it with
  | [] => Hit
  | s :: s_rest =>
      match it with
      | [] => Exhausted
      | x :: rest => if p x s then scan_window p rest s_rest else Miss
      end
  end.

(** [std::search(first, last, s_first, s_last, p)] as the distance of the
    result from [first]; [last] is [length first].  The windows are tried
    from left to right; a miss happens on a haystack element, so the
    haystack is not empty when the scan moves on. *)
Fixpoint std_search (p : Z -> Z -> bool) (first s_first : list Z) : nat :=
  match scan_window p first s_first with
  | Hit => O
  | Exhausted => length first
  | Miss =>
      match first with
      | [] => O
      | _ :: rest => S (std_search p rest s_first)
      end
  end.

(** ** The class memory_signature *)

(** [size()]: [_end - _pattern.get()]. *)
Definition size (this : nat) : M Z :=
  let* o := get_obj this in lift (ptr_diff (_end o) (_pattern o)).

(** Destruction of the members, as the destructor and the unwinding of a
    constructor perform it: the unique_ptr releases its array. *)
Definition destroy (this : nat) : M unit :=
  let* o := get_obj this in
  let* _ := delete_array (_pattern o) in
  fun s => (Ok tt, mk_state (heap s) (delete this (objs s))).

(** [unique_ptr::release] and [unique_ptr::reset] on the [_pattern] member;
    move assignment of a unique_ptr is [reset(other.release())]. *)
Definition release (this : nat) : M ptr :=
  let* o := get_obj this in
  let* _ := set_pattern this Null in
  ret (_pattern o).

Definition reset (this : nat) (p : ptr) : M unit :=
  let* o := get_obj this in
  let* _ := set_pattern this p in
  delete_array (_pattern o).

(** The loop of [masked_to_wilcard], a private member; running off the
    mask is undefined. *)
Fixpoint masked_loop (this : nat) (unknown : Z) (first_pat first_mask : list Z)
    (my_pat : ptr) : M unit :=
  match first_pat with
  | [] => ret tt
  | x :: pat_rest =>
      match first_mask with
      | [] => undefined
      | m :: mask_rest =>
          let* _ :=
            (if negb (m =? unknown) then store my_pat (to_uchar x)
             else let* o := get_obj this in store my_pat (_wildcard o)) in
          masked_loop this unknown pat_rest mask_rest (ptr_add my_pat 1)
      end
  end.

Definition masked_to_wilcard (this : nat) (first_pat first_mask : list Z)
    (unknown : Z) : M unit :=
  let* o := get_obj this in
  masked_loop this unknown first_pat first_mask (_pattern o).

(** [memory_signature()] *)
Definition ctor_default (this : nat) : M unit :=
  put_obj this (mk_signature Null Null 0).

(** [memory_signature(const memory_signature&)].  [_end] has no initialiser
    and is written in the body; until then the model holds null there. *)
Definition copy_ctor (this other : nat) : M unit :=
  let* o := get_obj other in
  let* _ := put_obj this (mk_signature Null Null (_wildcard o)) in
  unwind
    (let* n := size other in
     let* new_pat := new_array n in
     let* o := get_obj other in
     let* src := read_range (_pattern o) (_end o) in
     let* _ := copy_to src new_pat in
     let* _ := reset this new_pat in
     let* t := get_obj this in
     let* n := size other in
     set_end this (ptr_add (_pattern t) n))
    (destroy this).

(** [operator=(const memory_signature&)] *)
Definition copy_assign (this other : nat) : M unit :=
  let* n := size other in
  let* new_pat := new_array n in
  let* o := get_obj other in
  let* src := read_range (_pattern o) (_end o) in
  let* _ := copy_to src new_pat in
  let* _ := reset this new_pat in
  let* t := get_obj this in
  let* n := size other in
  let* _ := set_end this (ptr_add (_pattern t) n) in
  let* o := get_obj other in
  set_wildcard this (_wildcard o).

(** [memory_signature(memory_signature&&)] *)
Definition move_ctor (this other : nat) : M unit :=
  let* p := release other in
  let* o := get_obj other in
  put_obj this (mk_signature p (_end o) (_wildcard o)).

(** [operator=(memory_signature&&)] *)
Definition move_assign (this other : nat) : M unit :=
  let* p := release other in
  let* _ := reset this p in
  let* o := get_obj other in
  let* _ := set_end this (_end o) in
  let* o := get_obj other in
  set_wildcard this (_wildcard o).

(** The wildcard signature constructors.  The [std::string] overload and the
    [std::initializer_list] overload have the same initialisers and body. *)
Definition ctor_wildcard (this : nat) (pattern : list Z) (wildcard : Z)
    : M unit :=
  let* p := new_array (Z.of_nat (length pattern)) in
  let* _ := put_obj this
              (mk_signature p (ptr_add p (Z.of_nat (length pattern)))
                            (to_uchar wildcard)) in
  let* o := get_obj this in
  copy_to (map to_uchar pattern) (_pattern o).

(** The masked signature constructors are not embedded.  Both initialise
    [_wildcard] by a call of [detail::find_wildcard_masked], which is
    ill-formed (see the note in [detail]): no use of either constructor
    compiles, so a masked construction has no run.  [masked_to_wilcard]
    above is called by these two constructors only. *)

(** The predicate handed to [std::search]: both parameters are
    [unsigned char], the left one converted from the buffer element. *)
Definition byte_match (wildcard lhs rhs : Z) : bool :=
  (to_uchar lhs =? rhs) || (rhs =? wildcard).

(** [find(first, last)]: the buffer is the list of its elements, a position
    is its distance from [first], and [last] is [length buf]. *)
Definition find (this : nat) (buf : list Z) : M nat :=
  let* o := get_obj this in
  if ptr_eqb (_pattern o) (_end o) then ret (length buf)
  else
    let* pat := read_range (_pattern o) (_end o) in
    ret (std_search (byte_match (_wildcard o)) buf pat).

(** ** Abstraction *)

(** The bytes and the wildcard a well-formed object stands for: both
    pointers null, or [_pattern] at the start and [_end] one past the end
    of one live array. *)
Definition pattern_of (s : state) (this : nat) : option (list Z * Z) :=
  match objs s !! this with
  | None => None
  | Some o =>
      match _pattern o, _end o with
      | Null, Null => Some ([], _wildcard o)
      | Ptr b 0, Ptr c n =>
          match heap s !! b with
          | Some (Some cells) =>
              if Nat.eqb b c && (n =? Z.of_nat (length cells))
              then Some (cells, _wildcard o) else None
          | _ => None
          end
      | _, _ => None
      end
  end.

(** The array an object owns, if any. *)
Definition buffer_of (s : state) (this : nat) : option nat :=
  match objs s !! this with
  | Some o => match _pattern o with Ptr b _ => Some b | Null => None end
  | None => None
  end.

Definition empty_state : state := mk_state [] ∅.

(** ** Vocabulary of the statements *)

(** The bytes [masked_to_wilcard] leaves in the array: the literal byte at a
    known position, the wildcard at an unknown one. *)
Fixpoint masked_bytes (w unknown : Z) (pat mask : list Z) : list Z :=
  match pat, mask with
  | x :: pat', m :: mask' =>
      (if m =? unknown then w else to_uchar x)
      :: masked_bytes w unknown pat' mask'
  | _, _ => []
  end.

(** The result of [find] as a function of the bytes and the wildcard. *)
Definition find_value (bs : list Z) (w : Z) (buf : list Z) : nat :=
  match bs with
  | [] => length buf
  | _ :: _ => std_search (byte_match w) buf bs
  end.

(** The needle [s] sits at the front of [it], element by element under [p]. *)
Definition matches_here (p : Z -> Z -> bool) (it s : list Z) : Prop :=
  (length s <= length it)%nat /\
  forall i y, s !! i = Some y -> exists x, it !! i = Some x /\ p x y = true.

(** The state a constructor leaves behind: the new object owns the array
    allocated last, which holds [bs]. *)
Definition built (s : state) (this : nat) (bs : list Z) (w : Z) : state :=
  mk_state (heap s ++ [Some bs])
           (<[this := mk_signature (Ptr (length (heap s)) 0)
                        (Ptr (length (heap s)) (Z.of_nat (length bs))) w]>
              (objs s)).

(** The heap once the array behind [p] is released. *)
Definition released (h : list (option (list Z))) (p : ptr)
    : list (option (list Z)) :=
  match p with
  | Null => h
  | Ptr b _ => <[b := None]> h
  end.

(** The window of [buf] at offset [k] matches the pattern [pat] with
    wildcard [w]: it lies inside the buffer and at every position the
    pattern byte equals the buffer byte or equals the wildcard. *)
Definition window_at (w : Z) (buf pat : list Z) (k : nat) : Prop :=
  (k + length pat <= length buf)%nat /\
  forall i y, pat !! i = Some y ->
    exists x, buf !! (k + i)%nat = Some x /\ (y = to_uchar x \/ y = w).

Definition first_window (w : Z) (buf pat : list Z) (k : nat) : Prop :=
  window_at w buf pat k /\ forall j, (j < k)%nat -> ~ window_at w buf pat j.

(** What the search section of the specification says of [find], at one
    object and one buffer: the result is the first matching window (the
    buffer's end when there is none), and a buffer shorter than the pattern
    gives the buffer's end. *)
Definition finds_first_window (s : state) (this : nat) (buf : list Z) : Prop :=
  forall bs w, pattern_of s this = Some (bs, w) ->
  exists k, find this buf s = (Ok k, s)
    /\ (first_window w buf bs k
        \/ (k = length buf /\ forall j, ~ window_at w buf bs j))
    /\ ((length buf < length bs)%nat -> k = length buf).

(** Comparators a caller can hand to [detail.find_wildcard], which calls
    its comparator with the element as argument.  [by_value p] is a
    stateless predicate on the element.  [per_occurrence] is a closure with
    state, such as one stepping through a mask: it does not look at the
    element and gives its answers in turn, one per call; calling it once
    the answers are used up is undefined. *)
Definition by_value (p : Z -> bool) (c : unit) (x : Z)
    : outcome (bool * unit) :=
  Ok (p x, c).

Definition per_occurrence (answers : list bool) (_ : Z)
    : outcome (bool * list bool) :=
  match answers with
  | [] => Undefined
  | a :: rest => Ok (a, rest)
  end.

(** The derivation of the specification, over a sequence and the answers
    (known or not) given for its elements in turn: the values with an
    occurrence answered known, and the smallest value of 0..255 that is not
    among them. *)
Fixpoint known_values (pat : list Z) (answers : list bool) : list Z :=
  match pat, answers with
  | x :: pat', a :: answers' =>
      if a then x :: known_values pat' answers'
      else known_values pat' answers'
  | _, _ => []
  end.

Definition derive_or (pat : list Z) (answers : list bool) : option Z :=
  List.find (fun v => negb (existsb (Z.eqb v) (known_values pat answers)))
            (map Z.of_nat (seq 0 256)).

(** The flag the first loop of [find_wildcard] leaves for the value [v]
    under [per_occurrence]: each occurrence of [v] assigns it anew, so it is
    the answer given at the last occurrence ([init] when there is none). *)
Fixpoint last_answer (v : Z) (pat : list Z) (answers : list bool)
    (init : bool) : bool :=
  match pat, answers with
  | x :: pat', a :: answers' =>
      last_answer v pat' answers' (if x =? v then a else init)
  | _, _ => init
  end.

(** The literal with every byte value 0..255 once, in order. *)
Definition all_bytes : list Z := map Z.of_nat (seq 0 256).

(** How two Patterns come to have the same origin: built one after the
    other from the same construction inputs (by the default constructor or
    a wildcard signature constructor), or one copied from the other by the
    copy constructor or by copy assignment between two objects. *)
Inductive same_origin : state -> nat -> nat -> Prop :=
| default_twice s a b :
    a <> b ->
    same_origin (snd (ctor_default b (snd (ctor_default a s)))) a b
| wildcard_twice s a b pat w :
    a <> b ->
    same_origin
      (snd (ctor_wildcard b pat w (snd (ctor_wildcard a pat w s)))) a b
| copy_constructed s a b v :
    a <> b ->
    pattern_of s a = Some v ->
    same_origin (snd (copy_ctor b a s)) a b
| copy_assigned s a b v v' :
    a <> b ->
    pattern_of s a = Some v ->
    pattern_of s b = Some v' ->
    (forall c, buffer_of s b = Some c -> buffer_of s a <> Some c) ->
    same_origin (snd (copy_assign b a s)) a b.

(** * Properties *)

(** ** Stores through a pointer *)

Lemma store_cell h o b pre x post v :
  h !! b = Some (Some (pre ++ x :: post)) ->
  store (Ptr b (Z.of_nat (length pre))) v (mk_state h o)
  = (Ok tt, mk_state (<[b := Some (pre ++ v :: post)]> h) o).
Proof.
  intros Hb. unfold store; simpl. rewrite Hb, length_app; simpl.
  assert (Hin : (0 <=? Z.of_nat (length pre))
                && (Z.of_nat (length pre)
                    <? Z.of_nat (length pre + S (length post))) = true).
  { apply andb_true_iff; split; [apply Z.leb_le | apply Z.ltb_lt]; lia. }
  rewrite Hin, Nat2Z.id.
  rewrite insert_app_r_alt by lia.
  by rewrite Nat.sub_diag.
Qed.

Lemma ptr_add_next b (pre : list Z) x :
  ptr_add (Ptr b (Z.of_nat (length pre))) 1
  = Ptr b (Z.of_nat (length (pre ++ [x]))).
Proof. simpl. f_equal. rewrite length_app; simpl. lia. Qed.

Lemma copy_to_spec src : forall h o b pre old post,
  h !! b = Some (Some (pre ++ old ++ post)) ->
  length old = length src ->
  copy_to src (Ptr b (Z.of_nat (length pre))) (mk_state h o)
  = (Ok tt, mk_state (<[b := Some (pre ++ src ++ post)]> h) o).
Proof.
  induction src as [|x src IH]; intros h o b pre old post Hb Hlen.
  - destruct old; [|discriminate]. simpl.
    unfold ret. by rewrite list_insert_id.
  - destruct old as [|y old]; [discriminate|].
    injection Hlen as Hlen. simpl in Hb.
    cbn [copy_to]. unfold bind.
    rewrite (store_cell _ _ _ _ _ _ x Hb).
    rewrite (ptr_add_next b pre x).
    assert (Hlt : (b < length h)%nat) by (eapply lookup_lt_Some; eauto).
    rewrite (IH _ o b (pre ++ [x]) old post); [| |exact Hlen].
    + rewrite list_insert_insert_eq. by rewrite <- app_assoc.
    + rewrite list_lookup_insert_eq by exact Hlt. by rewrite <- app_assoc.
Qed.

Lemma masked_bytes_length w u pat : forall mask,
  length mask = length pat -> length (masked_bytes w u pat mask) = length pat.
Proof.
  induction pat as [|x pat IH]; intros [|m mask] H; simpl in *;
    try discriminate; auto.
Qed.

Lemma masked_loop_spec this unknown obj pat : forall mask h o b pre old post,
  o !! this = Some obj ->
  h !! b = Some (Some (pre ++ old ++ post)) ->
  length old = length pat ->
  length mask = length pat ->
  masked_loop this unknown pat mask (Ptr b (Z.of_nat (length pre)))
    (mk_state h o)
  = (Ok tt,
     mk_state
       (<[b := Some (pre ++ masked_bytes (_wildcard obj) unknown pat mask
                         ++ post)]> h) o).
Proof.
  induction pat as [|x pat IH]; intros mask h o b pre old post Ho Hb Hold Hm.
  - destruct old; [|discriminate]. destruct mask; [|discriminate].
    simpl. unfold ret. by rewrite list_insert_id.
  - destruct old as [|y old]; [discriminate|].
    destruct mask as [|m mask]; [discriminate|].
    injection Hold as Hold. injection Hm as Hm. simpl in Hb.
    cbn [masked_loop masked_bytes]. unfold bind at 1.
    assert (Hlt : (b < length h)%nat) by (eapply lookup_lt_Some; eauto).
    assert (Hst :
      (if negb (m =? unknown)
       then store (Ptr b (Z.of_nat (length pre))) (to_uchar x)
       else let* o0 := get_obj this in
            store (Ptr b (Z.of_nat (length pre))) (_wildcard o0))
        (mk_state h o)
      = (Ok tt,
         mk_state
           (<[b := Some (pre ++ (if m =? unknown then _wildcard obj
                                 else to_uchar x) :: old ++ post)]> h) o)).
    { destruct (m =? unknown); cbn [negb].
      - unfold bind, get_obj; cbn [objs]. rewrite Ho.
        by rewrite (store_cell _ _ _ _ _ _ _ Hb).
      - by rewrite (store_cell _ _ _ _ _ _ _ Hb). }
    rewrite Hst.
    set (v := if m =? unknown then _wildcard obj else to_uchar x).
    rewrite (ptr_add_next b pre v).
    rewrite (IH mask _ o b (pre ++ [v]) old post Ho); [| |exact Hold|exact Hm].
    + rewrite list_insert_insert_eq. by rewrite <- app_assoc.
    + rewrite list_lookup_insert_eq by exact Hlt. by rewrite <- app_assoc.
Qed.

(** ** What [find] computes on a well-formed object *)

Lemma find_pattern_of s this bs w buf :
  pattern_of s this = Some (bs, w) ->
  find this buf s = (Ok (find_value bs w buf), s).
Proof.
  unfold pattern_of, find, bind, get_obj.
  destruct (objs s !! this) as [[p e wc]|]; [|discriminate].
  cbn [_pattern _end _wildcard].
  destruct p as [|b off], e as [|c n]; try discriminate.
  - intros [= <- <-]. reflexivity.
  - destruct off; discriminate.
  - destruct off; try discriminate.
    destruct (heap s !! b) as [[cells|]|] eqn:Hb; try discriminate.
    destruct (Nat.eqb b c) eqn:Hbc; [|discriminate]. cbn [andb].
    destruct (n =? Z.of_nat (length cells)) eqn:Hn; [|discriminate].
    intros [= <- <-]. apply Z.eqb_eq in Hn. subst n.
    unfold ptr_eqb. rewrite Hbc. cbn [andb].
    destruct cells as [|x cells]; [reflexivity|].
    replace (0 =? Z.of_nat (length (x :: cells))) with false
      by (symmetry; apply Z.eqb_neq; cbn [length]; lia).
    unfold read_range. rewrite Hb, Hbc. cbn [andb].
    replace (0 <=? 0) with true by reflexivity.
    replace (0 <=? Z.of_nat (length (x :: cells))) with true
      by (symmetry; apply Z.leb_le; lia).
    rewrite Z.leb_refl. cbn [andb].
    rewrite Z.sub_0_r, Nat2Z.id. change (Z.to_nat 0) with O.
    rewrite drop_0, firstn_all. reflexivity.
Qed.

(** ** The window scan of [std::search] *)

Section search.

Variable p : Z -> Z -> bool.

Lemma matches_here_nil it : matches_here p it [].
Proof. split; [simpl; lia|]. intros i y H. destruct i; discriminate. Qed.

Lemma matches_here_cons x it y s :
  matches_here p (x :: it) (y :: s) <-> p x y = true /\ matches_here p it s.
Proof.
  split.
  - intros [Hlen H]. split.
    + destruct (H O y eq_refl) as (x' & Hx & Hp).
      simpl in Hx. injection Hx as <-. exact Hp.
    + split; [simpl in Hlen; lia|].
      intros i z Hz. exact (H (S i) z Hz).
  - intros [Hp [Hlen H]]. split; [simpl; lia|].
    intros [|i] z Hz.
    + injection Hz as <-. exists x. by split.
    + exact (H i z Hz).
Qed.

Lemma scan_window_hit s : forall it,
  scan_window p it s = Hit -> matches_here p it s.
Proof.
  induction s as [|y s IH]; intros it H.
  - apply matches_here_nil.
  - destruct it as [|x it]; [discriminate|]. simpl in H.
    destruct (p x y) eqn:Hp; [|discriminate].
    apply matches_here_cons. split; [exact Hp | exact (IH it H)].
Qed.

Lemma scan_window_exhausted s : forall it,
  scan_window p it s = Exhausted -> (length it < length s)%nat.
Proof.
  induction s as [|y s IH]; intros it H; [discriminate|].
  destruct it as [|x it]; [simpl; lia|]. simpl in H.
  destruct (p x y); [|discriminate].
  specialize (IH it H). simpl. lia.
Qed.

Lemma scan_window_miss s : forall it,
  scan_window p it s = Miss -> ~ matches_here p it s.
Proof.
  induction s as [|y s IH]; intros it H; [discriminate|].
  destruct it as [|x it]; [discriminate|]. simpl in H.
  rewrite matches_here_cons. intros [Hp Hm].
  rewrite Hp in H. exact (IH it H Hm).
Qed.

(** The result of [std_search] is the first offset at which the needle
    matches, or the length of the haystack when it matches nowhere. *)
Lemma std_search_spec s : forall first,
  let k := std_search p first s in
  (matches_here p (drop k first) s
   /\ forall j, (j < k)%nat -> ~ matches_here p (drop j first) s)
  \/ (k = length first /\ forall j, ~ matches_here p (drop j first) s).
Proof.
  induction first as [|x first IH]; cbn [std_search].
  - destruct (scan_window p [] s) eqn:Hs.
    + left. split; [exact (scan_window_hit _ _ Hs)|]. intros j Hj. lia.
    + right. split; [reflexivity|]. intros j [Hlen _].
      apply scan_window_exhausted in Hs. rewrite length_drop in Hlen. lia.
    + destruct s; discriminate.
  - destruct (scan_window p (x :: first) s) eqn:Hs.
    + left. split; [exact (scan_window_hit _ _ Hs)|]. intros j Hj. lia.
    + right. split; [reflexivity|]. intros j [Hlen _].
      apply scan_window_exhausted in Hs. rewrite length_drop in Hlen. lia.
    + apply scan_window_miss in Hs.
      destruct IH as [[Hm Hfirst]|[Hk Hnone]].
      * left. split; [exact Hm|].
        intros [|j] Hj; [exact Hs|].
        apply Hfirst. lia.
      * right. split; [simpl; by rewrite Hk|].
        intros [|j]; [exact Hs | apply Hnone].
Qed.

Lemma std_search_le s first : (std_search p first s <= length first)%nat.
Proof.
  induction first as [|x first IH]; cbn [std_search].
  - destruct (scan_window p [] s) eqn:Hs; simpl; try lia.
  - destruct (scan_window p (x :: first) s); simpl; lia.
Qed.

End search.

(** ** Stepping through monadic code *)

Lemma bind_ok {A B} (m : M A) (f : A -> M B) s a s' :
  m s = (Ok a, s') -> bind m f s = f a s'.
Proof. unfold bind. by intros ->. Qed.

Lemma unwind_ok {A} (m : M A) c s a s' :
  m s = (Ok a, s') -> unwind m c s = (Ok a, s').
Proof. unfold unwind. by intros ->. Qed.

Lemma get_obj_ok this o s :
  objs s !! this = Some o -> get_obj this s = (Ok o, s).
Proof. unfold get_obj. by intros ->. Qed.

Lemma new_array_ok n s :
  0 <= n ->
  new_array n s
  = (Ok (Ptr (length (heap s)) 0),
     mk_state (heap s ++ [Some (replicate (Z.to_nat n) 0)]) (objs s)).
Proof.
  intros Hn. unfold new_array.
  by replace (n <? 0) with false by (symmetry; apply Z.ltb_ge; lia).
Qed.

Lemma copy_to_fresh src h o :
  copy_to src (Ptr (length h) 0)
    (mk_state (h ++ [Some (replicate (length src) 0)]) o)
  = (Ok tt, mk_state (h ++ [Some src]) o).
Proof.
  change (Ptr (length h) 0) with (Ptr (length h) (Z.of_nat (length (@nil Z)))).
  rewrite (copy_to_spec src _ o (length h) [] (replicate (length src) 0) []).
  - cbn [app]. rewrite app_nil_r, insert_app_r_alt by lia.
    by rewrite Nat.sub_diag.
  - cbn [app]. by rewrite app_nil_r, lookup_app_r, Nat.sub_diag by lia.
  - apply length_replicate.
Qed.

(** ** Well-formed objects *)

Lemma pattern_of_inv s this bs w :
  pattern_of s this = Some (bs, w) ->
  exists o, objs s !! this = Some o /\ _wildcard o = w /\
    ((_pattern o = Null /\ _end o = Null /\ bs = []) \/
     (exists b, _pattern o = Ptr b 0
                /\ _end o = Ptr b (Z.of_nat (length bs))
                /\ heap s !! b = Some (Some bs))).
Proof.
  unfold pattern_of.
  destruct (objs s !! this) as [[p e wc]|]; [|discriminate].
  cbn [_pattern _end _wildcard]. intros H. eexists; split; [reflexivity|].
  cbn [_pattern _end _wildcard].
  destruct p as [|b off], e as [|c n]; try discriminate.
  - injection H as <- <-. split; [reflexivity|]. by left.
  - destruct off; discriminate.
  - destruct off; try discriminate.
    destruct (heap s !! b) as [[cells|]|] eqn:Hb; try discriminate.
    destruct (Nat.eqb b c) eqn:Hbc; [|discriminate]. cbn [andb] in H.
    destruct (n =? Z.of_nat (length cells)) eqn:Hn; [|discriminate].
    injection H as <- <-. apply Z.eqb_eq in Hn. apply Nat.eqb_eq in Hbc.
    subst. split; [reflexivity|]. right. by exists c.
Qed.

Lemma pattern_of_array s this b bs w :
  objs s !! this
  = Some (mk_signature (Ptr b 0) (Ptr b (Z.of_nat (length bs))) w) ->
  heap s !! b = Some (Some bs) ->
  pattern_of s this = Some (bs, w).
Proof.
  intros Ho Hb. unfold pattern_of. rewrite Ho. cbn [_pattern _end _wildcard].
  by rewrite Hb, Nat.eqb_refl, Z.eqb_refl.
Qed.

Lemma size_ok s this bs w :
  pattern_of s this = Some (bs, w) ->
  size this s = (Ok (Z.of_nat (length bs)), s).
Proof.
  intros H. apply pattern_of_inv in H as (o & Ho & _ & Hshape).
  unfold size. rewrite (bind_ok _ _ _ _ _ (get_obj_ok _ _ _ Ho)).
  unfold lift.
  destruct Hshape as [(-> & -> & ->)|(b & -> & -> & _)]; simpl.
  - reflexivity.
  - by rewrite Nat.eqb_refl, Z.sub_0_r.
Qed.

Lemma read_pattern_ok s this o bs w :
  pattern_of s this = Some (bs, w) ->
  objs s !! this = Some o ->
  read_range (_pattern o) (_end o) s = (Ok bs, s).
Proof.
  intros H Ho. apply pattern_of_inv in H as (o' & Ho' & _ & Hshape).
  rewrite Ho in Ho'. injection Ho' as <-.
  destruct Hshape as [(-> & -> & ->)|(b & -> & -> & Hb)].
  - reflexivity.
  - unfold read_range. rewrite Hb, Nat.eqb_refl. cbn [andb].
    replace (0 <=? 0) with true by reflexivity.
    replace (0 <=? Z.of_nat (length bs)) with true
      by (symmetry; apply Z.leb_le; lia).
    rewrite Z.leb_refl. cbn [andb].
    rewrite Z.sub_0_r, Nat2Z.id. change (Z.to_nat 0) with O.
    by rewrite drop_0, firstn_all.
Qed.

(** Objects other than the one written, and arrays other than the one
    released, keep what they stand for. *)
Lemma pattern_of_frame s s' a v :
  pattern_of s a = Some v ->
  objs s' !! a = objs s !! a ->
  (forall b, buffer_of s a = Some b -> heap s' !! b = heap s !! b) ->
  pattern_of s' a = Some v.
Proof.
  unfold pattern_of, buffer_of. intros H Ho Hh. rewrite Ho.
  destruct (objs s !! a) as [[p e wc]|]; [|discriminate].
  cbn [_pattern _end _wildcard] in *.
  destruct p as [|b off]; [exact H|].
  by rewrite (Hh b eq_refl).
Qed.

(** ** The constructors and assignments on well-formed objects *)

Lemma pattern_of_built s this bs w :
  pattern_of (built s this bs w) this = Some (bs, w).
Proof.
  apply pattern_of_array with (b := length (heap s)); simpl.
  - apply lookup_insert_eq.
  - by rewrite lookup_app_r, Nat.sub_diag by lia.
Qed.

Lemma buffer_of_built s this bs w :
  buffer_of (built s this bs w) this = Some (length (heap s)).
Proof. unfold buffer_of, built; simpl. by rewrite lookup_insert_eq. Qed.

Lemma buffer_of_live s a v b :
  pattern_of s a = Some v -> buffer_of s a = Some b ->
  (b < length (heap s))%nat.
Proof.
  destruct v as [bs w]. intros H Hb.
  apply pattern_of_inv in H as (o & Ho & _ & Hshape).
  unfold buffer_of in Hb. rewrite Ho in Hb.
  destruct Hshape as [(Hp & _)|(c & Hp & _ & Hc)]; rewrite Hp in Hb.
  - discriminate.
  - injection Hb as <-. eapply lookup_lt_Some; eauto.
Qed.

Lemma pattern_of_built_other s this bs w a v :
  a <> this ->
  pattern_of s a = Some v ->
  pattern_of (built s this bs w) a = Some v.
Proof.
  intros Hne H. apply (pattern_of_frame s); [exact H| |]; simpl.
  - by apply lookup_insert_ne.
  - intros b Hb. apply lookup_app_l. eapply buffer_of_live; eauto.
Qed.

Lemma buffer_of_built_other s this bs w a :
  a <> this -> buffer_of (built s this bs w) a = buffer_of s a.
Proof. intros Hne. unfold buffer_of, built; simpl. by rewrite lookup_insert_ne. Qed.

Lemma ctor_wildcard_spec this pat w s :
  ctor_wildcard this pat w s
  = (Ok tt, built s this (map to_uchar pat) (to_uchar w)).
Proof.
  unfold ctor_wildcard.
  rewrite (bind_ok _ _ _ _ _ (new_array_ok _ s (Nat2Z.is_nonneg _))).
  rewrite Nat2Z.id. unfold put_obj at 1. unfold bind at 1.
  cbn [heap objs ptr_add].
  erewrite bind_ok; [|apply get_obj_ok; apply lookup_insert_eq].
  cbn [_pattern].
  rewrite <- (length_map to_uchar pat) at 1.
  rewrite copy_to_fresh. unfold built.
  by rewrite length_map, Z.add_0_l.
Qed.

Lemma ctor_default_spec this s :
  pattern_of (snd (ctor_default this s)) this = Some ([], 0).
Proof.
  unfold ctor_default, put_obj, pattern_of; simpl.
  by rewrite lookup_insert_eq.
Qed.

Lemma set_pattern_ok this p o s :
  objs s !! this = Some o ->
  set_pattern this p s
  = (Ok tt, mk_state (heap s)
              (<[this := mk_signature p (_end o) (_wildcard o)]> (objs s))).
Proof.
  intros Ho. unfold set_pattern.
  by rewrite (bind_ok _ _ _ _ _ (get_obj_ok _ _ _ Ho)).
Qed.

Lemma set_end_ok this e o s :
  objs s !! this = Some o ->
  set_end this e s
  = (Ok tt, mk_state (heap s)
              (<[this := mk_signature (_pattern o) e (_wildcard o)]> (objs s))).
Proof.
  intros Ho. unfold set_end.
  by rewrite (bind_ok _ _ _ _ _ (get_obj_ok _ _ _ Ho)).
Qed.

Lemma set_wildcard_ok this w o s :
  objs s !! this = Some o ->
  set_wildcard this w s
  = (Ok tt, mk_state (heap s)
              (<[this := mk_signature (_pattern o) (_end o) w]> (objs s))).
Proof.
  intros Ho. unfold set_wildcard.
  by rewrite (bind_ok _ _ _ _ _ (get_obj_ok _ _ _ Ho)).
Qed.

Lemma reset_null this p o s :
  objs s !! this = Some o -> _pattern o = Null ->
  reset this p s
  = (Ok tt, mk_state (heap s)
              (<[this := mk_signature p (_end o) (_wildcard o)]> (objs s))).
Proof.
  intros Ho Hp. unfold reset.
  rewrite (bind_ok _ _ _ _ _ (get_obj_ok _ _ _ Ho)).
  rewrite (bind_ok _ _ _ _ _ (set_pattern_ok _ _ _ _ Ho)).
  by rewrite Hp.
Qed.

Lemma reset_array this p o s b cells :
  objs s !! this = Some o -> _pattern o = Ptr b 0 ->
  heap s !! b = Some (Some cells) ->
  reset this p s
  = (Ok tt, mk_state (<[b := None]> (heap s))
              (<[this := mk_signature p (_end o) (_wildcard o)]> (objs s))).
Proof.
  intros Ho Hp Hb. unfold reset.
  rewrite (bind_ok _ _ _ _ _ (get_obj_ok _ _ _ Ho)).
  rewrite (bind_ok _ _ _ _ _ (set_pattern_ok _ _ _ _ Ho)).
  rewrite Hp. unfold delete_array. cbn [heap objs]. by rewrite Hb.
Qed.

Lemma copy_ctor_spec this other bs w s :
  this <> other ->
  pattern_of s other = Some (bs, w) ->
  copy_ctor this other s = (Ok tt, built s this bs w).
Proof.
  intros Hne H.
  destruct (pattern_of_inv _ _ _ _ H) as (o & Ho & Hw & _).
  unfold copy_ctor.
  rewrite (bind_ok _ _ _ _ _ (get_obj_ok _ _ _ Ho)).
  unfold put_obj at 1. unfold bind at 1.
  set (s1 := mk_state (heap s)
               (<[this := mk_signature Null Null (_wildcard o)]> (objs s))).
  assert (H1 : pattern_of s1 other = Some (bs, w)).
  { apply (pattern_of_frame s); [exact H| |auto].
    subst s1; cbn [objs]. by apply lookup_insert_ne. }
  assert (Ho1 : objs s1 !! other = Some o).
  { subst s1; cbn [objs]. by rewrite lookup_insert_ne. }
  apply unwind_ok.
  rewrite (bind_ok _ _ _ _ _ (size_ok _ _ _ _ H1)).
  rewrite (bind_ok _ _ _ _ _ (new_array_ok _ s1 (Nat2Z.is_nonneg _))).
  rewrite Nat2Z.id.
  set (s2 := mk_state _ (objs s1)).
  assert (Ho2 : objs s2 !! other = Some o) by exact Ho1.
  assert (H2 : pattern_of s2 other = Some (bs, w)).
  { apply (pattern_of_frame s1); [exact H1|reflexivity|].
    intros b Hb. subst s2; cbn [heap]. apply lookup_app_l.
    exact (buffer_of_live s1 other (bs, w) b H1 Hb). }
  rewrite (bind_ok _ _ _ _ _ (get_obj_ok _ _ _ Ho2)).
  rewrite (bind_ok _ _ _ _ _ (read_pattern_ok _ _ _ _ _ H2 Ho2)).
  subst s2. rewrite (bind_ok _ _ _ _ _ (copy_to_fresh _ _ _)).
  set (s3 := mk_state _ (objs s1)).
  assert (Ht3 : objs s3 !! this = Some (mk_signature Null Null (_wildcard o))).
  { subst s3 s1; cbn [objs]. apply lookup_insert_eq. }
  rewrite (bind_ok _ _ _ _ _ (reset_null _ _ _ _ Ht3 eq_refl)).
  cbn [_end _wildcard].
  set (s4 := mk_state (heap s3) _).
  assert (H4 : pattern_of s4 other = Some (bs, w)).
  { apply (pattern_of_frame s1); [exact H1| |].
    - subst s4 s3; cbn [objs]. by rewrite lookup_insert_ne.
    - intros b Hb. subst s4 s3; cbn [heap]. apply lookup_app_l.
      exact (buffer_of_live s1 other (bs, w) b H1 Hb). }
  erewrite bind_ok;
    [|apply get_obj_ok; subst s4; cbn [objs]; apply lookup_insert_eq].
  rewrite (bind_ok _ _ _ _ _ (size_ok _ _ _ _ H4)).
  erewrite set_end_ok; [|subst s4; cbn [objs]; apply lookup_insert_eq].
  subst s4 s3 s1. unfold built. cbn [heap objs _pattern _wildcard ptr_add].
  by rewrite !insert_insert_eq, Z.add_0_l, Hw.
Qed.

Lemma reset_ok this p o v s :
  pattern_of s this = Some v ->
  objs s !! this = Some o ->
  reset this p s
  = (Ok tt, mk_state (released (heap s) (_pattern o))
              (<[this := mk_signature p (_end o) (_wildcard o)]> (objs s))).
Proof.
  destruct v as [bs w]. intros H Ho.
  apply pattern_of_inv in H as (o' & Ho' & _ & Hshape).
  rewrite Ho in Ho'. injection Ho' as <-.
  destruct Hshape as [(Hp & _)|(b & Hp & _ & Hb)].
  - rewrite (reset_null _ _ _ _ Ho Hp). by rewrite Hp.
  - rewrite (reset_array _ _ _ _ _ _ Ho Hp Hb). by rewrite Hp.
Qed.

(** Copy assignment between two distinct objects that own distinct arrays:
    the target owns a fresh array with the bytes of the source, and its old
    array is released. *)
Lemma copy_assign_spec this other t bs w v s :
  this <> other ->
  pattern_of s other = Some (bs, w) ->
  pattern_of s this = Some v ->
  objs s !! this = Some t ->
  (forall b, buffer_of s this = Some b -> buffer_of s other <> Some b) ->
  copy_assign this other s
  = (Ok tt,
     mk_state (released (heap s ++ [Some bs]) (_pattern t))
       (<[this := mk_signature (Ptr (length (heap s)) 0)
                    (Ptr (length (heap s)) (Z.of_nat (length bs))) w]>
          (objs s))).
Proof.
  intros Hne H Ht Hto Hsep.
  destruct (pattern_of_inv _ _ _ _ H) as (o & Ho & Hw & _).
  unfold copy_assign.
  rewrite (bind_ok _ _ _ _ _ (size_ok _ _ _ _ H)).
  rewrite (bind_ok _ _ _ _ _ (new_array_ok _ s (Nat2Z.is_nonneg _))).
  rewrite Nat2Z.id.
  set (s2 := mk_state _ (objs s)).
  assert (Hgrow : forall a u b, pattern_of s a = Some u ->
            buffer_of s a = Some b -> forall x,
            (heap s ++ [x]) !! b = heap s !! b).
  { intros a u b Ha Hb x. apply lookup_app_l.
    exact (buffer_of_live s a u b Ha Hb). }
  assert (H2 : pattern_of s2 other = Some (bs, w)).
  { apply (pattern_of_frame s); [exact H|reflexivity|].
    intros b Hb. subst s2; cbn [heap]. by apply (Hgrow other (bs, w)). }
  rewrite (bind_ok _ _ _ _ _ (get_obj_ok other o s2 Ho)).
  rewrite (bind_ok _ _ _ _ _ (read_pattern_ok _ _ _ _ _ H2 Ho)).
  subst s2. rewrite (bind_ok _ _ _ _ _ (copy_to_fresh _ _ _)).
  set (s3 := mk_state _ (objs s)).
  assert (Ht3 : pattern_of s3 this = Some v).
  { apply (pattern_of_frame s); [exact Ht|reflexivity|].
    intros b Hb. subst s3; cbn [heap]. by apply (Hgrow this v). }
  rewrite (bind_ok _ _ _ _ _ (reset_ok this _ t v s3 Ht3 Hto)).
  set (s4 := mk_state _ _).
  assert (Ho4 : objs s4 !! other = Some o).
  { subst s4; cbn [objs]. by rewrite lookup_insert_ne. }
  assert (H4 : pattern_of s4 other = Some (bs, w)).
  { apply (pattern_of_frame s); [exact H| |].
    - by rewrite Ho4.
    - intros b Hb. subst s4 s3; cbn [heap].
      destruct (_pattern t) as [|bt off] eqn:Hpt; cbn [released].
      + by apply (Hgrow other (bs, w)).
      + rewrite list_lookup_insert_ne; [by apply (Hgrow other (bs, w))|].
        intros ->. apply (Hsep b); [|exact Hb].
        unfold buffer_of. by rewrite Hto, Hpt. }
  erewrite bind_ok;
    [|apply get_obj_ok; subst s4; cbn [objs]; apply lookup_insert_eq].
  rewrite (bind_ok _ _ _ _ _ (size_ok _ _ _ _ H4)).
  erewrite bind_ok;
    [|apply set_end_ok; subst s4; cbn [objs]; apply lookup_insert_eq].
  erewrite bind_ok;
    [|apply get_obj_ok; cbn [objs]; rewrite lookup_insert_ne by exact Hne;
      exact Ho4].
  erewrite set_wildcard_ok; [|cbn [objs]; apply lookup_insert_eq].
  subst s4 s3. cbn [heap objs _pattern _end _wildcard ptr_add].
  by rewrite !insert_insert_eq, Z.add_0_l, Hw.
Qed.

Lemma copy_assign_pattern this other bs w v s :
  this <> other ->
  pattern_of s other = Some (bs, w) ->
  pattern_of s this = Some v ->
  (forall b, buffer_of s this = Some b -> buffer_of s other <> Some b) ->
  let s' := snd (copy_assign this other s) in
  fst (copy_assign this other s) = Ok tt
  /\ pattern_of s' this = Some (bs, w)
  /\ pattern_of s' other = Some (bs, w)
  /\ buffer_of s' this = Some (length (heap s))
  /\ buffer_of s' other = buffer_of s other.
Proof.
  intros Hne H Ht Hsep. destruct v as [bt wt].
  destruct (pattern_of_inv _ _ _ _ Ht) as (t & Hto & _ & _).
  rewrite (copy_assign_spec this other t bs w _ s Hne H Ht Hto Hsep).
  cbn [fst snd].
  assert (Hold : forall b off, _pattern t = Ptr b off ->
            (b < length (heap s))%nat).
  { intros b off Hp. apply (buffer_of_live s this (bt, wt) b Ht).
    unfold buffer_of. by rewrite Hto, Hp. }
  split; [reflexivity|]. split; [|split; [|split]].
  - apply pattern_of_array with (b := length (heap s)); cbn [heap objs].
    + apply lookup_insert_eq.
    + destruct (_pattern t) as [|b off] eqn:Hp; cbn [released].
      * by rewrite lookup_app_r, Nat.sub_diag by lia.
      * specialize (Hold b off eq_refl).
        rewrite list_lookup_insert_ne by lia.
        by rewrite lookup_app_r, Nat.sub_diag by lia.
  - apply (pattern_of_frame s); [exact H| |]; cbn [heap objs].
    + by apply lookup_insert_ne.
    + intros b Hb.
      assert (Hlt : (b < length (heap s))%nat)
        by exact (buffer_of_live s other (bs, w) b H Hb).
      destruct (_pattern t) as [|bt' off] eqn:Hp; cbn [released].
      * by apply lookup_app_l.
      * rewrite list_lookup_insert_ne; [by apply lookup_app_l|].
        intros ->. apply (Hsep b); [|exact Hb].
        unfold buffer_of. by rewrite Hto, Hp.
  - unfold buffer_of; cbn [objs]. by rewrite lookup_insert_eq.
  - unfold buffer_of; cbn [objs]. by rewrite lookup_insert_ne.
Qed.

(** ** Search: the first matching window *)

Lemma byte_match_spec w x y :
  byte_match w x y = true <-> y = to_uchar x \/ y = w.
Proof.
  unfold byte_match. rewrite orb_true_iff, !Z.eqb_eq. intuition congruence.
Qed.

Lemma window_at_matches w buf pat k :
  window_at w buf pat k -> matches_here (byte_match w) (drop k buf) pat.
Proof.
  intros [Hlen H]. split; [rewrite length_drop; lia|].
  intros i y Hy. destruct (H i y Hy) as (x & Hx & Hm).
  exists x. split; [by rewrite lookup_drop | by apply byte_match_spec].
Qed.

Lemma matches_window_at w buf pat k :
  (k <= length buf)%nat ->
  matches_here (byte_match w) (drop k buf) pat -> window_at w buf pat k.
Proof.
  intros Hk [Hlen H]. rewrite length_drop in Hlen. split; [lia|].
  intros i y Hy. destruct (H i y Hy) as (x & Hx & Hm).
  exists x. split; [by rewrite <- lookup_drop | by apply byte_match_spec].
Qed.

Lemma find_value_spec bs w buf :
  bs <> [] ->
  let k := find_value bs w buf in
  (k <= length buf)%nat
  /\ (first_window w buf bs k
      \/ (k = length buf /\ forall j, ~ window_at w buf bs j)).
Proof.
  intros Hne. destruct bs as [|b bs]; [done|]. cbn [find_value].
  pose proof (std_search_le (byte_match w) (b :: bs) buf) as Hle.
  split; [exact Hle|].
  destruct (std_search_spec (byte_match w) (b :: bs) buf)
    as [[Hm Hfirst]|[Hk Hnone]].
  - left. split; [by apply matches_window_at|].
    intros j Hj Hw. exact (Hfirst j Hj (window_at_matches _ _ _ _ Hw)).
  - right. split; [exact Hk|].
    intros j Hw. exact (Hnone j (window_at_matches _ _ _ _ Hw)).
Qed.

Lemma window_at_fits w buf pat k :
  window_at w buf pat k -> (length pat <= length buf)%nat.
Proof. intros [H _]. lia. Qed.

(** ** Moves and self-assignment in general *)

Lemma release_ok this o s :
  objs s !! this = Some o ->
  release this s
  = (Ok (_pattern o),
     mk_state (heap s)
       (<[this := mk_signature Null (_end o) (_wildcard o)]> (objs s))).
Proof.
  intros Ho. unfold release.
  rewrite (bind_ok _ _ _ _ _ (get_obj_ok _ _ _ Ho)).
  by rewrite (bind_ok _ _ _ _ _ (set_pattern_ok _ _ _ _ Ho)).
Qed.

(** Move construction hands the array over: the destination stands for the
    bytes, the source keeps a null [_pattern] and its old [_end]. *)
Lemma move_ctor_spec this other o s :
  objs s !! other = Some o ->
  move_ctor this other s
  = (Ok tt,
     mk_state (heap s)
       (<[this := o]>
          (<[other := mk_signature Null (_end o) (_wildcard o)]> (objs s)))).
Proof.
  intros Ho. unfold move_ctor.
  rewrite (bind_ok _ _ _ _ _ (release_ok _ _ _ Ho)).
  erewrite bind_ok; [|apply get_obj_ok; cbn [objs]; apply lookup_insert_eq].
  unfold put_obj. cbn [heap objs _end _wildcard]. by destruct o.
Qed.

(** The source of a move that owned an array is not empty afterwards:
    [find] on it is undefined on every buffer. *)
Lemma find_moved_from this other v b buf s :
  this <> other ->
  pattern_of s other = Some v ->
  buffer_of s other = Some b ->
  fst (find other buf (snd (move_ctor this other s))) = Undefined.
Proof.
  intros Hne H Hb. destruct v as [bs w].
  destruct (pattern_of_inv _ _ _ _ H) as (o & Ho & _ & Hshape).
  rewrite (move_ctor_spec _ _ _ _ Ho). cbn [snd].
  unfold buffer_of in Hb. rewrite Ho in Hb.
  destruct Hshape as [(Hp & _)|(c & Hp & He & _)]; rewrite Hp in Hb;
    [discriminate|].
  unfold find, bind, get_obj. cbn [objs].
  rewrite lookup_insert_ne by exact Hne. rewrite lookup_insert_eq.
  cbn [_pattern _end]. by rewrite He.
Qed.

(** Copy assignment of any Pattern to itself is undefined: [other.size()]
    is read again once [_pattern] points to the new array. *)
Lemma copy_assign_self this v s :
  pattern_of s this = Some v ->
  fst (copy_assign this this s) = Undefined.
Proof.
  intros H. destruct v as [bs w].
  destruct (pattern_of_inv _ _ _ _ H) as (o & Ho & _ & Hshape).
  unfold copy_assign.
  rewrite (bind_ok _ _ _ _ _ (size_ok _ _ _ _ H)).
  rewrite (bind_ok _ _ _ _ _ (new_array_ok _ s (Nat2Z.is_nonneg _))).
  rewrite Nat2Z.id.
  set (s2 := mk_state _ (objs s)).
  assert (H2 : pattern_of s2 this = Some (bs, w)).
  { apply (pattern_of_frame s); [exact H|reflexivity|].
    intros b Hb. subst s2; cbn [heap]. apply lookup_app_l.
    exact (buffer_of_live s this (bs, w) b H Hb). }
  rewrite (bind_ok _ _ _ _ _ (get_obj_ok this o s2 Ho)).
  rewrite (bind_ok _ _ _ _ _ (read_pattern_ok _ _ _ _ _ H2 Ho)).
  subst s2. rewrite (bind_ok _ _ _ _ _ (copy_to_fresh _ _ _)).
  set (s3 := mk_state _ (objs s)).
  assert (H3 : pattern_of s3 this = Some (bs, w)).
  { apply (pattern_of_frame s); [exact H|reflexivity|].
    intros b Hb. subst s3; cbn [heap]. apply lookup_app_l.
    exact (buffer_of_live s this (bs, w) b H Hb). }
  rewrite (bind_ok _ _ _ _ _ (reset_ok this _ o _ s3 H3 Ho)).
  erewrite bind_ok; [|apply get_obj_ok; cbn [objs]; apply lookup_insert_eq].
  unfold bind at 1. unfold size, bind at 1, get_obj, lift. cbn [objs].
  rewrite lookup_insert_eq. cbn [_pattern _end].
  destruct Hshape as [(_ & He & _)|(c & _ & He & Hc)]; rewrite He.
  - reflexivity.
  - cbn [ptr_diff].
    assert (Hlt : (c < length (heap s))%nat) by (eapply lookup_lt_Some; eauto).
    replace (Nat.eqb c (length (heap s))) with false
      by (symmetry; apply Nat.eqb_neq; lia).
    reflexivity.
Qed.

(** ** The examples of the specification, run on the model *)

(** A literal with wildcard tag: the exact literal at offset 2. *)
Example tagged_literal_found :
  fst (find 0 [9; 9; 72; 105; 33; 9]
         (snd (ctor_wildcard 0 [72; 63; 33] 63 empty_state))) = Ok 2%nat.
Proof. vm_compute. reflexivity. Qed.

(** * The claims *)

(** ** Wildcard derivation *)

(** The scan of [find_wildcard] returns the first clear flag. *)
Lemma first_clear_some bits n : forall i r,
  detail.first_clear bits i n = Some r ->
  i <= r < i + Z.of_nat n /\ Z.testbit bits r = false
  /\ forall j, i <= j < r -> Z.testbit bits j = true.
Proof.
  induction n as [|n IH]; intros i r H; [discriminate|].
  cbn [detail.first_clear] in H.
  destruct (Z.testbit bits i) eqn:Hi.
  - destruct (IH _ _ H) as (Hr & Hclear & Hset).
    split; [lia|]. split; [exact Hclear|].
    intros j Hj. destruct (Z.eq_dec j i) as [->|Hne]; [exact Hi|].
    apply Hset. lia.
  - injection H as <-. split; [lia|]. split; [exact Hi|]. intros j Hj. lia.
Qed.

Lemma first_clear_none bits n : forall i,
  detail.first_clear bits i n = None ->
  forall j, i <= j < i + Z.of_nat n -> Z.testbit bits j = true.
Proof.
  induction n as [|n IH]; intros i H j Hj; [lia|].
  cbn [detail.first_clear] in H.
  destruct (Z.testbit bits i) eqn:Hi; [|discriminate].
  destruct (Z.eq_dec j i) as [->|Hne]; [exact Hi|].
  apply (IH _ H). lia.
Qed.

Lemma bitset_assign_testbit bits x f bits' v :
  detail.bitset_assign bits x f = Ok bits' ->
  0 <= v ->
  Z.testbit bits' v = if x =? v then f else Z.testbit bits v.
Proof.
  unfold detail.bitset_assign.
  destruct ((0 <=? x) && (x <? 256)) eqn:Hx; [|discriminate].
  apply andb_true_iff in Hx as [Hx0 _]. apply Z.leb_le in Hx0.
  intros [= <-] Hv.
  destruct (Z.eqb_spec x v) as [->|Hne].
  - destruct f; [by apply Z.setbit_eq | by apply Z.clearbit_eq].
  - destruct f; [by apply Z.setbit_neq | by apply Z.clearbit_neq].
Qed.

Lemma first_clear_all_set bits n : forall i,
  (forall j, i <= j < i + Z.of_nat n -> Z.testbit bits j = true) ->
  detail.first_clear bits i n = None.
Proof.
  induction n as [|n IH]; intros i H; [reflexivity|].
  cbn [detail.first_clear]. rewrite (H i) by lia.
  apply IH. intros j Hj. apply H. lia.
Qed.

(** After the first loop, run with [per_occurrence], the flag of each
    value is the answer given at its last occurrence. *)
Lemma mark_bits_last_answer pat : forall answers bits bits',
  detail.mark_bits per_occurrence answers pat bits = Ok bits' ->
  forall v, 0 <= v ->
  Z.testbit bits' v = last_answer v pat answers (Z.testbit bits v).
Proof.
  induction pat as [|x pat IH]; intros answers bits bits' H v Hv.
  - injection H as <-. by destruct answers.
  - destruct answers as [|a answers]; [discriminate|].
    cbn [detail.mark_bits per_occurrence obind fst snd] in H.
    destruct (detail.bitset_assign bits x a) as [bits1| |] eqn:Hset;
      try discriminate.
    cbn [obind] in H. cbn [last_answer].
    rewrite (IH _ _ _ H v Hv).
    by rewrite (bitset_assign_testbit _ _ _ _ v Hset Hv).
Qed.

(** What [find_wildcard] returns under [per_occurrence]: the smallest value
    of 0..255 whose last occurrence was not answered known (a value that
    does not occur counts as such). *)
Lemma find_wildcard_per_occurrence_ok pat answers w :
  detail.find_wildcard pat per_occurrence answers = Ok w ->
  0 <= w < 256
  /\ last_answer w pat answers false = false
  /\ forall j, 0 <= j < w -> last_answer j pat answers false = true.
Proof.
  unfold detail.find_wildcard.
  destruct (detail.mark_bits per_occurrence answers pat 0)
    as [bits| |] eqn:Hm; try discriminate.
  cbn [obind].
  destruct (detail.first_clear bits 0 256) as [i|] eqn:Hf; [|discriminate].
  destruct (first_clear_some _ _ _ _ Hf) as (Hi & Hclear & Hset).
  assert (Hu : to_uchar i = i) by (apply Z.mod_small; lia).
  rewrite Hu. intros [= <-]. split; [lia|].
  split.
  - pose proof (mark_bits_last_answer _ _ _ _ Hm i ltac:(lia)) as E.
    rewrite Z.testbit_0_l in E. rewrite <- E. exact Hclear.
  - intros j Hj.
    pose proof (mark_bits_last_answer _ _ _ _ Hm j ltac:(lia)) as E.
    rewrite Z.testbit_0_l in E. rewrite <- E. exact (Hset j Hj).
Qed.

(** C1: [find_wildcard] does not OR the flags of a value over its
    occurrences, it assigns them.  Called on the sequence [0x00, 0x00] with
    a comparator that answers known for the first element and unknown for
    the second, it leaves the flag of 0x00 clear and returns 0x00, a value
    with a known occurrence.  On the sequence [0x10, 0x10] of the
    specification it returns 0x00 as well, hence not 0x10.  (No masked
    construction reaches [find_wildcard]: the call that would supply the
    comparator is ill-formed.) *)
Theorem derivation_overwrites_flag :
  detail.find_wildcard [0; 0] per_occurrence [true; false] = Ok 0
  /\ known_values [0; 0] [true; false] = [0]
  /\ detail.find_wildcard [16; 16] per_occurrence [true; false] = Ok 0.
Proof. vm_compute. repeat split. Qed.

(** C4: [find_wildcard] returns the first value whose flag is clear, but a
    flag records the answer at the last occurrence of the value only.  On
    [0x00, 0x00] answered known, unknown it returns 0x00 where the smallest
    value without a known occurrence is 0x01; on the 256 byte values, all
    answered known, followed by a 0x00 answered unknown, every value has a
    known occurrence and it returns 0x00 instead of throwing. *)
Theorem derivation_differs_from_known_positions :
  detail.find_wildcard [0; 0] per_occurrence [true; false] = Ok 0
  /\ derive_or [0; 0] [true; false] = Some 1
  /\ detail.find_wildcard (all_bytes ++ [0]) per_occurrence
       (replicate 256 true ++ [false]) = Ok 0
  /\ derive_or (all_bytes ++ [0]) (replicate 256 true ++ [false]) = None.
Proof. vm_compute. repeat split. Qed.

(** ** Search *)

(** C3, as amended: for every non-empty Pattern and every buffer, [find]
    returns the position of the first window that has the pattern's length
    and matches it position by position (pattern byte equal to the buffer
    byte, or equal to the wildcard), and the buffer's end when no window
    matches; a wildcard byte of the pattern matches every buffer byte, the
    wildcard value included; a buffer shorter than the pattern gives the
    buffer's end. *)
Theorem find_first_window s this bs w buf :
  pattern_of s this = Some (bs, w) ->
  bs <> [] ->
  exists k, find this buf s = (Ok k, s)
    /\ (k <= length buf)%nat
    /\ (first_window w buf bs k
        \/ (k = length buf /\ forall j, ~ window_at w buf bs j))
    /\ ((length buf < length bs)%nat -> k = length buf)
    /\ (forall x, byte_match w x w = true).
Proof.
  intros H Hne. exists (find_value bs w buf).
  destruct (find_value_spec bs w buf Hne) as [Hle Hk].
  split; [exact (find_pattern_of _ _ _ _ buf H)|].
  split; [exact Hle|]. split; [exact Hk|]. split.
  - intros Hshort. destruct Hk as [[Hw _]|[Hk _]]; [|exact Hk].
    apply window_at_fits in Hw. lia.
  - intros x. apply byte_match_spec. by right.
Qed.

Lemma find_first_window_witness :
  exists k,
    find 0 [1; 65; 63; 67; 65; 9; 67]
      (snd (ctor_wildcard 0 [65; 63; 67] 63 empty_state))
    = (Ok k, snd (ctor_wildcard 0 [65; 63; 67] 63 empty_state))
    /\ (k <= 7)%nat
    /\ (first_window 63 [1; 65; 63; 67; 65; 9; 67] [65; 63; 67] k
        \/ (k = 7%nat
            /\ forall j, ~ window_at 63 [1; 65; 63; 67; 65; 9; 67]
                             [65; 63; 67] j))
    /\ ((7 < 3)%nat -> k = 7%nat)
    /\ (forall x, byte_match 63 x 63 = true).
Proof.
  apply (find_first_window
           (snd (ctor_wildcard 0 [65; 63; 67] 63 empty_state)) 0%nat
           [65; 63; 67] 63 [1; 65; 63; 67; 65; 9; 67]).
  - reflexivity.
  - discriminate.
Defined.

(** C3, as written, fails on the empty Pattern: the window of length 0 at
    offset 0 matches, yet [find] returns the buffer's end. *)
Lemma find_first_window_empty_pattern :
  ~ finds_first_window (snd (ctor_default 0 empty_state)) 0 [1].
Proof.
  intros Hclaim.
  destruct (Hclaim [] 0 eq_refl) as (k & Hfind & Hk & _).
  assert (k = 1%nat) as -> by (vm_compute in Hfind; congruence).
  assert (Hw0 : window_at 0 [1] [] 0).
  { split; [simpl; lia|]. intros i y Hy. destruct i; discriminate. }
  destruct Hk as [[_ Hfirst]|[_ Hnone]].
  - exact (Hfirst 0%nat ltac:(lia) Hw0).
  - exact (Hnone 0%nat Hw0).
Qed.

(** C5: on an empty Pattern [find] returns the end of the buffer, whatever
    the buffer holds. *)
Theorem find_empty_pattern s this w buf :
  pattern_of s this = Some ([], w) ->
  find this buf s = (Ok (length buf), s).
Proof. intros H. exact (find_pattern_of _ _ _ _ buf H). Qed.

Lemma find_empty_pattern_witness :
  find 0 [7; 8; 9] (snd (ctor_wildcard 0 [] 63 empty_state))
  = (Ok 3%nat, snd (ctor_wildcard 0 [] 63 empty_state)).
Proof.
  apply (find_empty_pattern (snd (ctor_wildcard 0 [] 63 empty_state)) 0%nat 63
           [7; 8; 9]).
  reflexivity.
Defined.

(** The emptiness test of [find] compares the two pointers and reads no
    byte: it answers the same on any heap. *)
Lemma find_empty_no_scan h h' o this obj buf :
  o !! this = Some obj ->
  ptr_eqb (_pattern obj) (_end obj) = true ->
  fst (find this buf (mk_state h o)) = Ok (length buf)
  /\ fst (find this buf (mk_state h' o)) = Ok (length buf).
Proof.
  intros Ho He. unfold find, bind, get_obj. cbn [objs]. rewrite Ho, He.
  by split.
Qed.

(** C8: on every Pattern and every buffer [find] returns a position, at
    most the buffer's end; it neither throws nor leaves defined behaviour,
    and it leaves the state as it was.  With an empty pattern, or a buffer
    shorter than the pattern, the position returned is the buffer's end.
    The search is a structural recursion on the buffer. *)
Theorem find_total s this bs w buf :
  pattern_of s this = Some (bs, w) ->
  exists k, find this buf s = (Ok k, s)
    /\ (k <= length buf)%nat
    /\ (bs = [] \/ (length buf < length bs)%nat -> k = length buf).
Proof.
  intros H. exists (find_value bs w buf).
  split; [exact (find_pattern_of _ _ _ _ buf H)|].
  destruct bs as [|b bs]; [cbn [find_value]; by split|].
  destruct (find_value_spec (b :: bs) w buf ltac:(discriminate)) as [Hle Hk].
  split; [exact Hle|].
  intros [Hnil|Hshort]; [discriminate|].
  destruct Hk as [[Hw _]|[Hk _]]; [|exact Hk].
  apply window_at_fits in Hw. lia.
Qed.

Lemma find_total_witness :
  exists k,
    find 0 [65; 66] (snd (ctor_wildcard 0 [65; 66; 67] 63 empty_state))
    = (Ok k, snd (ctor_wildcard 0 [65; 66; 67] 63 empty_state))
    /\ (k <= 2)%nat
    /\ ([65; 66; 67] = [] \/ (2 < 3)%nat -> k = 2%nat).
Proof.
  apply (find_total (snd (ctor_wildcard 0 [65; 66; 67] 63 empty_state)) 0%nat
           [65; 66; 67] 63 [65; 66]).
  reflexivity.
Defined.

(** ** Copies and moves *)

(** C6: a move takes the array away from the source but leaves the source's
    [_end] where it was.  After move construction (and after move
    assignment) from the Pattern of the one byte 0x41, the source has a null
    [_pattern] and an [_end] into the array the destination now owns; its
    emptiness test fails and [find] hands the range from null to [_end] to
    the search, which is undefined. *)
Theorem moved_from_source_not_empty :
  let s0 := snd (ctor_wildcard 0 [65] 63 empty_state) in
  let s1 := snd (move_ctor 1 0 s0) in
  let s2 := snd (move_assign 1 0 (snd (ctor_default 1 s0))) in
  fst (move_ctor 1 0 s0) = Ok tt
  /\ pattern_of s1 1%nat = Some ([65], 63)
  /\ objs s1 !! 0%nat = Some (mk_signature Null (Ptr 0 1) 63)
  /\ fst (find 0 [65] s1) = Undefined
  /\ fst (move_assign 1 0 (snd (ctor_default 1 s0))) = Ok tt
  /\ objs s2 !! 0%nat = Some (mk_signature Null (Ptr 0 1) 63)
  /\ fst (find 0 [65] s2) = Undefined.
Proof. vm_compute. repeat split. Qed.

Lemma same_origin_pattern s a b :
  same_origin s a b ->
  exists v, pattern_of s a = Some v /\ pattern_of s b = Some v
    /\ forall c, buffer_of s a = Some c -> buffer_of s b <> Some c.
Proof.
  intros H. destruct H as
    [s a b Hne|s a b pat w Hne|s a b v Hne Ha|s a b v v' Hne Ha Hb Hsep].
  - exists ([], 0). unfold ctor_default, put_obj, pattern_of, buffer_of.
    cbn [snd objs heap]. rewrite lookup_insert_eq.
    rewrite lookup_insert_ne by congruence. rewrite lookup_insert_eq.
    cbn [_pattern _end _wildcard]. repeat split. discriminate.
  - rewrite !ctor_wildcard_spec. cbn [snd].
    exists (map to_uchar pat, to_uchar w).
    split; [|split].
    + apply pattern_of_built_other; [exact Hne|apply pattern_of_built].
    + apply pattern_of_built.
    + rewrite buffer_of_built_other, !buffer_of_built by exact Hne.
      intros c [= <-] [= Hc]. cbn [built heap] in Hc.
      rewrite length_app in Hc. simpl in Hc. lia.
  - destruct v as [bs w].
    rewrite (copy_ctor_spec b a bs w s (not_eq_sym Hne) Ha). cbn [snd].
    exists (bs, w). split; [|split].
    + by apply pattern_of_built_other.
    + apply pattern_of_built.
    + rewrite buffer_of_built_other, buffer_of_built by exact Hne.
      intros c Hc [= Hl].
      pose proof (buffer_of_live s a (bs, w) c Ha Hc). lia.
  - destruct v as [bs w].
    destruct (copy_assign_pattern b a bs w v' s (not_eq_sym Hne) Ha Hb Hsep)
      as (_ & Hpb & Hpa & Hbb & Hba).
    exists (bs, w). split; [exact Hpa|]. split; [exact Hpb|].
    rewrite Hbb, Hba. intros c Hc [= Hl].
    pose proof (buffer_of_live s a (bs, w) c Ha Hc). lia.
Qed.

(** C7: two Patterns built from the same construction inputs, and a Pattern
    and its copy (by copy construction, or by copy assignment to another
    object), give the same [find] result on every buffer, and no array is
    owned by both. *)
Theorem same_origin_matching_equivalent s a b :
  same_origin s a b ->
  (forall buf, exists k,
      find a buf s = (Ok k, s) /\ find b buf s = (Ok k, s))
  /\ (forall c, buffer_of s a = Some c -> buffer_of s b <> Some c).
Proof.
  intros H. destruct (same_origin_pattern s a b H) as ([bs w] & Ha & Hb & Hsep).
  split; [|exact Hsep].
  intros buf. exists (find_value bs w buf).
  split; by apply find_pattern_of.
Qed.

Lemma same_origin_matching_equivalent_witness :
  (forall buf, exists k,
      find 0 buf
        (snd (copy_ctor 1 0 (snd (ctor_wildcard 0 [65; 0; 67] 0 empty_state))))
      = (Ok k,
         snd (copy_ctor 1 0 (snd (ctor_wildcard 0 [65; 0; 67] 0 empty_state))))
      /\ find 1 buf
           (snd (copy_ctor 1 0
                   (snd (ctor_wildcard 0 [65; 0; 67] 0 empty_state))))
         = (Ok k,
            snd (copy_ctor 1 0
                   (snd (ctor_wildcard 0 [65; 0; 67] 0 empty_state)))))
  /\ (forall c,
        buffer_of
          (snd (copy_ctor 1 0
                  (snd (ctor_wildcard 0 [65; 0; 67] 0 empty_state)))) 0
        = Some c ->
        buffer_of
          (snd (copy_ctor 1 0
                  (snd (ctor_wildcard 0 [65; 0; 67] 0 empty_state)))) 1
        <> Some c).
Proof.
  apply (same_origin_matching_equivalent _ 0%nat 1%nat).
  apply (copy_constructed
           (snd (ctor_wildcard 0 [65; 0; 67] 0 empty_state))
           0%nat 1%nat ([65; 0; 67], 0)).
  - discriminate.
  - reflexivity.
Defined.

(** Each way of sharing an origin occurs: a construction twice over, and a
    copy assignment onto a Pattern that owns another array. *)
Example same_origin_cases :
  same_origin
    (snd (ctor_default 1 (snd (ctor_default 0 empty_state)))) 0 1
  /\ same_origin
       (snd (ctor_wildcard 1 [65; 63] 63
               (snd (ctor_wildcard 0 [65; 63] 63 empty_state)))) 0 1
  /\ same_origin
       (snd (copy_assign 1 0
               (snd (ctor_wildcard 1 [9] 0
                       (snd (ctor_wildcard 0 [65; 63] 63 empty_state))))))
       0 1.
Proof.
  split; [|split].
  - by apply default_twice.
  - by apply wildcard_twice.
  - apply (copy_assigned _ 0%nat 1%nat ([65; 63], 63) ([9], 0)).
    + discriminate.
    + reflexivity.
    + reflexivity.
    + intros c Hc. vm_compute in Hc. injection Hc as <-.
      vm_compute. discriminate.
Qed.

(** C9: the wildcard constructors store the wildcard converted to
    [unsigned char], that is modulo 256: built with wildcard [w] and with
    wildcard [w + 256], a Pattern holds the same bytes and the same
    wildcard [w mod 256], and [find] returns the same position on every
    buffer. *)
Theorem wildcard_reduced_modulo_256 this pat w s buf :
  pattern_of (snd (ctor_wildcard this pat w s)) this
  = Some (map to_uchar pat, w mod 256)
  /\ pattern_of (snd (ctor_wildcard this pat (w + 256) s)) this
     = Some (map to_uchar pat, w mod 256)
  /\ exists k,
       fst (find this buf (snd (ctor_wildcard this pat w s))) = Ok k
       /\ fst (find this buf (snd (ctor_wildcard this pat (w + 256) s)))
          = Ok k.
Proof.
  assert (Hmod : to_uchar (w + 256) = w mod 256).
  { unfold to_uchar. replace (w + 256) with (w + 1 * 256) by lia.
    apply Z_mod_plus_full. }
  rewrite !ctor_wildcard_spec. cbn [snd]. rewrite Hmod.
  change (to_uchar w) with (w mod 256).
  split; [apply pattern_of_built|]. split; [apply pattern_of_built|].
  exists (find_value (map to_uchar pat) (w mod 256) buf).
  by rewrite (find_pattern_of _ _ _ _ buf (pattern_of_built s this _ _)).
Qed.

(** C10: copy assignment of a Pattern to itself is not safe.  The new array
    is filled before the old one is released, but [_end] is then computed
    from [other.size()], which reads the [_pattern] just replaced: the
    difference of [_end], still into the old array, and the new array.  On
    the Pattern of the one byte 0x41 the assignment is undefined at that
    subtraction. *)
Theorem self_copy_assign_undefined :
  let s0 := snd (ctor_wildcard 0 [65] 63 empty_state) in
  pattern_of s0 0%nat = Some ([65], 63)
  /\ fst (copy_assign 0 0 s0) = Undefined
  /\ objs (snd (copy_assign 0 0 s0)) !! 0%nat
     = Some (mk_signature (Ptr 1 0) (Ptr 0 1) 63)
  /\ heap (snd (copy_assign 0 0 s0)) = [None; Some [65]]
  /\ ptr_diff (Ptr 0 1) (Ptr 1 0) = Undefined.
Proof. vm_compute. repeat split. Qed.

(** * Further properties of the class *)

(** ** Destruction and moves *)

Lemma destroy_null this o s :
  objs s !! this = Some o -> _pattern o = Null ->
  destroy this s = (Ok tt, mk_state (heap s) (delete this (objs s))).
Proof.
  intros Ho Hp. unfold destroy.
  rewrite (bind_ok _ _ _ _ _ (get_obj_ok _ _ _ Ho)).
  rewrite Hp. reflexivity.
Qed.

Lemma destroy_spec this o v s :
  pattern_of s this = Some v ->
  objs s !! this = Some o ->
  destroy this s
  = (Ok tt, mk_state (released (heap s) (_pattern o)) (delete this (objs s))).
Proof.
  destruct v as [bs w]. intros H Ho.
  apply pattern_of_inv in H as (o' & Ho' & _ & Hshape).
  rewrite Ho in Ho'. injection Ho' as <-.
  destruct Hshape as [(Hp & _)|(b & Hp & _ & Hb)].
  - rewrite (destroy_null _ _ _ Ho Hp). by rewrite Hp.
  - unfold destroy.
    rewrite (bind_ok _ _ _ _ _ (get_obj_ok _ _ _ Ho)).
    rewrite Hp. unfold bind, delete_array. rewrite Hb.
    reflexivity.
Qed.

(** An object keeps what it stands for when another object, owning another
    array, is destroyed. *)
Lemma pattern_of_destroy_other this a o v u s :
  a <> this ->
  pattern_of s this = Some v ->
  objs s !! this = Some o ->
  pattern_of s a = Some u ->
  (forall c, buffer_of s this = Some c -> buffer_of s a <> Some c) ->
  pattern_of (mk_state (released (heap s) (_pattern o)) (delete this (objs s)))
    a = Some u.
Proof.
  intros Hne Ht Ho Ha Hsep.
  apply (pattern_of_frame s); [exact Ha| |]; cbn [heap objs].
  - by apply lookup_delete_ne.
  - intros b Hb. destruct (_pattern o) as [|c off] eqn:Hp; cbn [released];
      [reflexivity|].
    apply list_lookup_insert_ne. intros ->.
    apply (Hsep b); [|exact Hb]. unfold buffer_of. by rewrite Ho, Hp.
Qed.

(** X1: the destructor of a Pattern succeeds, removes the object, releases
    the array it owned, and leaves every other Pattern that owns another
    array as it was. *)
Theorem destroy_releases this v s :
  pattern_of s this = Some v ->
  fst (destroy this s) = Ok tt
  /\ objs (snd (destroy this s)) !! this = None
  /\ (forall c, buffer_of s this = Some c ->
        heap (snd (destroy this s)) !! c = Some None)
  /\ (forall a u, a <> this -> pattern_of s a = Some u ->
        (forall c, buffer_of s this = Some c -> buffer_of s a <> Some c) ->
        pattern_of (snd (destroy this s)) a = Some u).
Proof.
  intros H. destruct v as [bs w].
  destruct (pattern_of_inv _ _ _ _ H) as (o & Ho & _ & _).
  rewrite (destroy_spec _ _ _ _ H Ho). cbn [fst snd heap objs].
  split; [reflexivity|]. split; [apply lookup_delete_eq|]. split.
  - intros c Hc.
    pose proof (buffer_of_live s this (bs, w) c H Hc) as Hlt.
    unfold buffer_of in Hc. rewrite Ho in Hc.
    destruct (_pattern o) as [|b off]; [discriminate|]. injection Hc as ->.
    cbn [released]. by apply list_lookup_insert_eq.
  - intros a u Hne Ha Hsep.
    exact (pattern_of_destroy_other this a o (bs, w) u s Hne H Ho Ha Hsep).
Qed.

Lemma destroy_releases_witness :
  fst (destroy 0 (snd (ctor_wildcard 0 [65; 66] 63 empty_state))) = Ok tt
  /\ objs (snd (destroy 0 (snd (ctor_wildcard 0 [65; 66] 63 empty_state))))
       !! 0%nat = None
  /\ (forall c,
        buffer_of (snd (ctor_wildcard 0 [65; 66] 63 empty_state)) 0 = Some c ->
        heap (snd (destroy 0 (snd (ctor_wildcard 0 [65; 66] 63 empty_state))))
          !! c = Some None)
  /\ (forall a u, a <> 0%nat ->
        pattern_of (snd (ctor_wildcard 0 [65; 66] 63 empty_state)) a = Some u ->
        (forall c,
           buffer_of (snd (ctor_wildcard 0 [65; 66] 63 empty_state)) 0
           = Some c ->
           buffer_of (snd (ctor_wildcard 0 [65; 66] 63 empty_state)) a
           <> Some c) ->
        pattern_of
          (snd (destroy 0 (snd (ctor_wildcard 0 [65; 66] 63 empty_state)))) a
        = Some u).
Proof.
  apply (destroy_releases 0%nat ([65; 66], 63)
           (snd (ctor_wildcard 0 [65; 66] 63 empty_state))).
  reflexivity.
Defined.

(** X2: move construction from a Pattern allocates nothing: the new object
    stands for the bytes and the wildcard of the source and owns the
    source's array, and the source owns no array any more. *)
Theorem move_ctor_transfers this other v s :
  this <> other ->
  pattern_of s other = Some v ->
  fst (move_ctor this other s) = Ok tt
  /\ pattern_of (snd (move_ctor this other s)) this = Some v
  /\ heap (snd (move_ctor this other s)) = heap s
  /\ buffer_of (snd (move_ctor this other s)) this = buffer_of s other
  /\ buffer_of (snd (move_ctor this other s)) other = None.
Proof.
  intros Hne H. destruct v as [bs w].
  destruct (pattern_of_inv _ _ _ _ H) as (o & Ho & _ & _).
  rewrite (move_ctor_spec _ _ _ _ Ho). cbn [fst snd heap].
  split; [reflexivity|]. split; [|split; [reflexivity|split]].
  - unfold pattern_of in H |- *. rewrite Ho in H. cbn [objs heap].
    by rewrite lookup_insert_eq.
  - unfold buffer_of. cbn [objs]. by rewrite lookup_insert_eq, Ho.
  - unfold buffer_of. cbn [objs].
    rewrite lookup_insert_ne by exact Hne. by rewrite lookup_insert_eq.
Qed.

Lemma move_ctor_transfers_witness :
  fst (move_ctor 1 0 (snd (ctor_wildcard 0 [65; 66] 63 empty_state))) = Ok tt
  /\ pattern_of
       (snd (move_ctor 1 0 (snd (ctor_wildcard 0 [65; 66] 63 empty_state))))
       1 = Some ([65; 66], 63)
  /\ heap (snd (move_ctor 1 0 (snd (ctor_wildcard 0 [65; 66] 63 empty_state))))
     = heap (snd (ctor_wildcard 0 [65; 66] 63 empty_state))
  /\ buffer_of
       (snd (move_ctor 1 0 (snd (ctor_wildcard 0 [65; 66] 63 empty_state))))
       1
     = buffer_of (snd (ctor_wildcard 0 [65; 66] 63 empty_state)) 0
  /\ buffer_of
       (snd (move_ctor 1 0 (snd (ctor_wildcard 0 [65; 66] 63 empty_state))))
       0 = None.
Proof.
  apply (move_ctor_transfers 1%nat 0%nat ([65; 66], 63)
           (snd (ctor_wildcard 0 [65; 66] 63 empty_state))).
  - discriminate.
  - reflexivity.
Defined.

Lemma move_assign_spec this other o t v' s :
  this <> other ->
  objs s !! other = Some o ->
  pattern_of s this = Some v' ->
  objs s !! this = Some t ->
  move_assign this other s
  = (Ok tt,
     mk_state (released (heap s) (_pattern t))
       (<[this := o]>
          (<[other := mk_signature Null (_end o) (_wildcard o)]> (objs s)))).
Proof.
  intros Hne Ho Ht Hto. unfold move_assign.
  rewrite (bind_ok _ _ _ _ _ (release_ok _ _ _ Ho)).
  set (s1 := mk_state (heap s) _).
  assert (Hto1 : objs s1 !! this = Some t).
  { subst s1; cbn [objs]. rewrite lookup_insert_ne by congruence. exact Hto. }
  assert (Ht1 : pattern_of s1 this = Some v').
  { apply (pattern_of_frame s); [exact Ht| |auto]. by rewrite Hto1. }
  rewrite (bind_ok _ _ _ _ _ (reset_ok this _ t v' s1 Ht1 Hto1)).
  erewrite bind_ok;
    [|apply get_obj_ok; subst s1; cbn [objs];
      rewrite lookup_insert_ne by exact Hne; apply lookup_insert_eq].
  erewrite bind_ok; [|apply set_end_ok; cbn [objs]; apply lookup_insert_eq].
  erewrite bind_ok;
    [|apply get_obj_ok; subst s1; cbn [objs];
      rewrite lookup_insert_ne by exact Hne;
      rewrite lookup_insert_ne by exact Hne; apply lookup_insert_eq].
  erewrite set_wildcard_ok; [|cbn [objs]; apply lookup_insert_eq].
  subst s1. cbn [heap objs _pattern _end _wildcard].
  rewrite !insert_insert_eq. by destruct o.
Qed.

(** X3: move assignment between two Patterns that own different arrays
    allocates nothing: the target comes to stand for the bytes and the
    wildcard of the source, the array the target owned before is released,
    and the source owns no array any more. *)
Theorem move_assign_transfers this other v v' s :
  this <> other ->
  pattern_of s other = Some v ->
  pattern_of s this = Some v' ->
  (forall c, buffer_of s this = Some c -> buffer_of s other <> Some c) ->
  fst (move_assign this other s) = Ok tt
  /\ pattern_of (snd (move_assign this other s)) this = Some v
  /\ buffer_of (snd (move_assign this other s)) this = buffer_of s other
  /\ buffer_of (snd (move_assign this other s)) other = None
  /\ length (heap (snd (move_assign this other s))) = length (heap s)
  /\ (forall c, buffer_of s this = Some c ->
        heap (snd (move_assign this other s)) !! c = Some None).
Proof.
  intros Hne H Ht Hsep. destruct v as [bs w], v' as [bt wt].
  destruct (pattern_of_inv _ _ _ _ H) as (o & Ho & _ & _).
  destruct (pattern_of_inv _ _ _ _ Ht) as (t & Hto & _ & _).
  rewrite (move_assign_spec this other o t _ s Hne Ho Ht Hto).
  cbn [fst snd heap].
  split; [reflexivity|]. split; [|split; [|split; [|split]]].
  - assert (Hmid : pattern_of
                     (mk_state (released (heap s) (_pattern t)) (objs s))
                     other = Some (bs, w)).
    { apply (pattern_of_frame s); [exact H|reflexivity|]. cbn [heap].
      intros b Hb. destruct (_pattern t) as [|c off] eqn:Hp; cbn [released];
        [reflexivity|].
      apply list_lookup_insert_ne. intros ->.
      apply (Hsep b); [|exact Hb]. unfold buffer_of. by rewrite Hto, Hp. }
    unfold pattern_of in Hmid |- *. cbn [objs heap] in Hmid |- *.
    rewrite Ho in Hmid. by rewrite lookup_insert_eq.
  - unfold buffer_of. cbn [objs]. by rewrite lookup_insert_eq, Ho.
  - unfold buffer_of. cbn [objs].
    rewrite lookup_insert_ne by exact Hne. by rewrite lookup_insert_eq.
  - destruct (_pattern t); cbn [released]; [reflexivity|apply length_insert].
  - intros c Hc.
    pose proof (buffer_of_live s this (bt, wt) c Ht Hc) as Hlt.
    unfold buffer_of in Hc. rewrite Hto in Hc.
    destruct (_pattern t) as [|b off]; [discriminate|]. injection Hc as ->.
    cbn [released]. by apply list_lookup_insert_eq.
Qed.

Lemma move_assign_transfers_witness :
  fst (move_assign 1 0
         (snd (ctor_wildcard 1 [9] 0
                 (snd (ctor_wildcard 0 [65; 63] 63 empty_state))))) = Ok tt
  /\ pattern_of
       (snd (move_assign 1 0
               (snd (ctor_wildcard 1 [9] 0
                       (snd (ctor_wildcard 0 [65; 63] 63 empty_state))))))
       1 = Some ([65; 63], 63)
  /\ buffer_of
       (snd (move_assign 1 0
               (snd (ctor_wildcard 1 [9] 0
                       (snd (ctor_wildcard 0 [65; 63] 63 empty_state))))))
       1
     = buffer_of
         (snd (ctor_wildcard 1 [9] 0
                 (snd (ctor_wildcard 0 [65; 63] 63 empty_state)))) 0
  /\ buffer_of
       (snd (move_assign 1 0
               (snd (ctor_wildcard 1 [9] 0
                       (snd (ctor_wildcard 0 [65; 63] 63 empty_state))))))
       0 = None
  /\ length
       (heap
          (snd (move_assign 1 0
                  (snd (ctor_wildcard 1 [9] 0
                          (snd (ctor_wildcard 0 [65; 63] 63 empty_state)))))))
     = length
         (heap
            (snd (ctor_wildcard 1 [9] 0
                    (snd (ctor_wildcard 0 [65; 63] 63 empty_state)))))
  /\ (forall c,
        buffer_of
          (snd (ctor_wildcard 1 [9] 0
                  (snd (ctor_wildcard 0 [65; 63] 63 empty_state)))) 1
        = Some c ->
        heap
          (snd (move_assign 1 0
                  (snd (ctor_wildcard 1 [9] 0
                          (snd (ctor_wildcard 0 [65; 63] 63 empty_state))))))
          !! c = Some None).
Proof.
  apply (move_assign_transfers 1%nat 0%nat ([65; 63], 63) ([9], 0)
           (snd (ctor_wildcard 1 [9] 0
                   (snd (ctor_wildcard 0 [65; 63] 63 empty_state))))).
  - discriminate.
  - reflexivity.
  - reflexivity.
  - intros c Hc. vm_compute in Hc. injection Hc as <-.
    vm_compute. discriminate.
Defined.

(** X4: move assignment of an object to itself changes nothing: the
    unique_ptr is released and handed back, and [_end] and [_wildcard] are
    assigned their own values. *)
Theorem move_assign_self this o s :
  objs s !! this = Some o ->
  move_assign this this s = (Ok tt, s).
Proof.
  intros Ho. unfold move_assign.
  rewrite (bind_ok _ _ _ _ _ (release_ok _ _ _ Ho)).
  erewrite bind_ok;
    [|eapply reset_null; [cbn [objs]; apply lookup_insert_eq|reflexivity]].
  erewrite bind_ok; [|apply get_obj_ok; cbn [objs]; apply lookup_insert_eq].
  erewrite bind_ok; [|apply set_end_ok; cbn [objs]; apply lookup_insert_eq].
  erewrite bind_ok; [|apply get_obj_ok; cbn [objs]; apply lookup_insert_eq].
  erewrite set_wildcard_ok; [|cbn [objs]; apply lookup_insert_eq].
  cbn [heap objs _pattern _end _wildcard].
  rewrite !insert_insert_eq. destruct s as [h m], o as [p e w].
  cbn [heap objs] in *. by rewrite insert_id.
Qed.

Lemma move_assign_self_witness :
  move_assign 0 0 (snd (ctor_wildcard 0 [65; 66] 63 empty_state))
  = (Ok tt, snd (ctor_wildcard 0 [65; 66] 63 empty_state)).
Proof.
  apply (move_assign_self 0%nat (mk_signature (Ptr 0 0) (Ptr 0 2) 63)
           (snd (ctor_wildcard 0 [65; 66] 63 empty_state))).
  reflexivity.
Defined.

(** ** Lifetimes of copies and of moved-from objects *)

(** X5: a copy is independent of its original.  After copy construction
    the copy can be destroyed, which leaves the original standing for the
    same bytes, and the original can be destroyed after it: no array is
    released twice. *)
Theorem copy_then_destroy_both this other v s :
  this <> other ->
  pattern_of s other = Some v ->
  fst (destroy this (snd (copy_ctor this other s))) = Ok tt
  /\ pattern_of (snd (destroy this (snd (copy_ctor this other s)))) other
     = Some v
  /\ fst (destroy other (snd (destroy this (snd (copy_ctor this other s)))))
     = Ok tt.
Proof.
  intros Hne H. destruct v as [bs w].
  rewrite (copy_ctor_spec this other bs w s Hne H). cbn [snd].
  pose proof (pattern_of_built s this bs w) as Hthis.
  destruct (pattern_of_inv _ _ _ _ Hthis) as (t & Hto & _ & _).
  assert (Hother : pattern_of (built s this bs w) other = Some (bs, w))
    by (apply pattern_of_built_other; [congruence|exact H]).
  rewrite (destroy_spec _ _ _ _ Hthis Hto). cbn [fst snd].
  assert (Hkept : pattern_of
            (mk_state (released (heap (built s this bs w)) (_pattern t))
               (delete this (objs (built s this bs w)))) other
          = Some (bs, w)).
  { apply (pattern_of_destroy_other this other t (bs, w) (bs, w));
      [congruence|exact Hthis|exact Hto|exact Hother|].
    rewrite buffer_of_built, buffer_of_built_other by congruence.
    intros c [= <-] Hc.
    pose proof (buffer_of_live s other (bs, w) _ H Hc). lia. }
  split; [reflexivity|]. split; [exact Hkept|].
  destruct (pattern_of_inv _ _ _ _ Hkept) as (o & Ho & _ & _).
  by rewrite (destroy_spec _ _ _ _ Hkept Ho).
Qed.

Lemma copy_then_destroy_both_witness :
  fst (destroy 1
         (snd (copy_ctor 1 0 (snd (ctor_wildcard 0 [65; 66] 63 empty_state)))))
  = Ok tt
  /\ pattern_of
       (snd (destroy 1
               (snd (copy_ctor 1 0
                       (snd (ctor_wildcard 0 [65; 66] 63 empty_state))))))
       0 = Some ([65; 66], 63)
  /\ fst (destroy 0
            (snd (destroy 1
                    (snd (copy_ctor 1 0
                            (snd (ctor_wildcard 0 [65; 66] 63
                                    empty_state)))))))
     = Ok tt.
Proof.
  apply (copy_then_destroy_both 1%nat 0%nat ([65; 66], 63)
           (snd (ctor_wildcard 0 [65; 66] 63 empty_state))).
  - discriminate.
  - reflexivity.
Defined.

(** X6: a moved-from object can be destroyed.  After move construction the
    source is destroyed without releasing anything, the destination still
    stands for the bytes, and the destination is destroyed after it. *)
Theorem move_then_destroy_both this other v s :
  this <> other ->
  pattern_of s other = Some v ->
  fst (destroy other (snd (move_ctor this other s))) = Ok tt
  /\ heap (snd (destroy other (snd (move_ctor this other s)))) = heap s
  /\ pattern_of (snd (destroy other (snd (move_ctor this other s)))) this
     = Some v
  /\ fst (destroy this (snd (destroy other (snd (move_ctor this other s)))))
     = Ok tt.
Proof.
  intros Hne H. destruct v as [bs w].
  destruct (pattern_of_inv _ _ _ _ H) as (o & Ho & _ & _).
  rewrite (move_ctor_spec _ _ _ _ Ho). cbn [snd].
  erewrite destroy_null;
    [|cbn [objs]; rewrite lookup_insert_ne by exact Hne;
      apply lookup_insert_eq|reflexivity].
  cbn [fst snd heap objs].
  assert (Hthis : pattern_of
            (mk_state (heap s)
               (delete other
                  (<[this := o]>
                     (<[other := mk_signature Null (_end o) (_wildcard o)]>
                        (objs s))))) this = Some (bs, w)).
  { unfold pattern_of in H |- *. rewrite Ho in H. cbn [objs heap].
    rewrite lookup_delete_ne by congruence. by rewrite lookup_insert_eq. }
  split; [reflexivity|]. split; [reflexivity|]. split; [exact Hthis|].
  destruct (pattern_of_inv _ _ _ _ Hthis) as (t & Hto & _ & _).
  by rewrite (destroy_spec _ _ _ _ Hthis Hto).
Qed.

Lemma move_then_destroy_both_witness :
  fst (destroy 0
         (snd (move_ctor 1 0 (snd (ctor_wildcard 0 [65; 66] 63 empty_state)))))
  = Ok tt
  /\ heap
       (snd (destroy 0
               (snd (move_ctor 1 0
                       (snd (ctor_wildcard 0 [65; 66] 63 empty_state))))))
     = heap (snd (ctor_wildcard 0 [65; 66] 63 empty_state))
  /\ pattern_of
       (snd (destroy 0
               (snd (move_ctor 1 0
                       (snd (ctor_wildcard 0 [65; 66] 63 empty_state))))))
       1 = Some ([65; 66], 63)
  /\ fst (destroy 1
            (snd (destroy 0
                    (snd (move_ctor 1 0
                            (snd (ctor_wildcard 0 [65; 66] 63
                                    empty_state)))))))
     = Ok tt.
Proof.
  apply (move_then_destroy_both 1%nat 0%nat ([65; 66], 63)
           (snd (ctor_wildcard 0 [65; 66] 63 empty_state))).
  - discriminate.
  - reflexivity.
Defined.

(** ** Conversion to a byte *)

Lemma to_uchar_range x : 0 <= to_uchar x < 256.
Proof. unfold to_uchar. apply Z.mod_pos_bound. lia. Qed.

Lemma to_uchar_small x : 0 <= x < 256 -> to_uchar x = x.
Proof. intros H. unfold to_uchar. by apply Z.mod_small. Qed.

Lemma to_uchar_idemp x : to_uchar (to_uchar x) = to_uchar x.
Proof. apply to_uchar_small, to_uchar_range. Qed.

(** ** The derivation with a predicate on the element *)

Lemma existsb_eqb_In v (pat : list Z) :
  existsb (Z.eqb v) pat = true <-> In v pat.
Proof.
  rewrite existsb_exists. split.
  - intros (x & Hin & Hx). apply Z.eqb_eq in Hx. by subst.
  - intros Hin. exists v. split; [exact Hin|apply Z.eqb_refl].
Qed.

(** With a stateless comparator the flag of a value that occurs is the
    comparator's answer on it; the other flags are untouched, and the loop
    runs through exactly when every element indexes the bit set. *)
Lemma mark_bits_by_value p pat : forall bits bits',
  detail.mark_bits (by_value p) tt pat bits = Ok bits' ->
  Forall (fun x => 0 <= x < 256) pat
  /\ forall v, 0 <= v ->
       Z.testbit bits' v
       = if existsb (Z.eqb v) pat then p v else Z.testbit bits v.
Proof.
  induction pat as [|x pat IH]; intros bits bits' H.
  - injection H as <-. split; [constructor|reflexivity].
  - cbn [detail.mark_bits by_value obind fst snd] in H.
    destruct (detail.bitset_assign bits x (p x)) as [bits1| |] eqn:Hset;
      try discriminate.
    cbn [obind] in H. destruct (IH _ _ H) as [Hr Hflag].
    split.
    + constructor; [|exact Hr].
      unfold detail.bitset_assign in Hset.
      destruct ((0 <=? x) && (x <? 256)) eqn:Hx; [|discriminate].
      apply andb_true_iff in Hx as [H0 H1].
      apply Z.leb_le in H0. apply Z.ltb_lt in H1. lia.
    + intros v Hv. rewrite (Hflag v Hv).
      rewrite (bitset_assign_testbit _ _ _ _ v Hset Hv).
      cbn [existsb]. rewrite (Z.eqb_sym v x).
      destruct (Z.eqb_spec x v) as [->|Hne]; cbn [orb];
        by destruct (existsb (Z.eqb v) pat).
Qed.

Lemma mark_bits_by_value_defined p pat : forall bits,
  Forall (fun x => 0 <= x < 256) pat ->
  exists bits', detail.mark_bits (by_value p) tt pat bits = Ok bits'.
Proof.
  induction pat as [|x pat IH]; intros bits Hr; [by exists bits|].
  apply Forall_cons in Hr as [Hx Hr].
  cbn [detail.mark_bits by_value obind fst snd].
  unfold detail.bitset_assign.
  replace ((0 <=? x) && (x <? 256)) with true
    by (symmetry; apply andb_true_iff; split;
        [apply Z.leb_le | apply Z.ltb_lt]; lia).
  cbn [obind]. by apply IH.
Qed.

Lemma mark_bits_by_value_no_throw p pat : forall bits e,
  detail.mark_bits (by_value p) tt pat bits <> Throw e.
Proof.
  induction pat as [|x pat IH]; intros bits e H; [discriminate|].
  cbn [detail.mark_bits by_value obind fst snd] in H.
  unfold detail.bitset_assign in H.
  destruct ((0 <=? x) && (x <? 256)); [|discriminate].
  cbn [obind] in H. exact (IH _ _ H).
Qed.

(** X7: called with a predicate on the element, [find_wildcard] returns a
    byte value that the predicate rejects if it occurs in the sequence at
    all, and every smaller byte value occurs in the sequence and is
    accepted by the predicate. *)
Theorem find_wildcard_by_value_result p pat w :
  detail.find_wildcard pat (by_value p) tt = Ok w ->
  0 <= w < 256
  /\ (In w pat -> p w = false)
  /\ (forall j, 0 <= j < w -> In j pat /\ p j = true).
Proof.
  unfold detail.find_wildcard.
  destruct (detail.mark_bits (by_value p) tt pat 0) as [bits| |] eqn:Hm;
    try discriminate.
  cbn [obind].
  destruct (detail.first_clear bits 0 256) as [i|] eqn:Hf; [|discriminate].
  destruct (first_clear_some _ _ _ _ Hf) as (Hi & Hclear & Hset).
  rewrite to_uchar_small by lia. intros [= <-].
  destruct (mark_bits_by_value _ _ _ _ Hm) as [_ Hflag].
  split; [lia|]. split.
  - intros Hin. rewrite (Hflag i) in Hclear by lia.
    apply existsb_eqb_In in Hin. by rewrite Hin in Hclear.
  - intros j Hj. pose proof (Hset j Hj) as Hj1.
    rewrite (Hflag j) in Hj1 by lia. rewrite Z.testbit_0_l in Hj1.
    destruct (existsb (Z.eqb j) pat) eqn:He; [|discriminate].
    split; [by apply existsb_eqb_In|exact Hj1].
Qed.

Lemma find_wildcard_by_value_result_witness :
  0 <= 2 < 256
  /\ (In 2 [0; 1; 5] -> (fun x => x <? 2) 2 = false)
  /\ (forall j, 0 <= j < 2 -> In j [0; 1; 5] /\ (fun x => x <? 2) j = true).
Proof.
  apply (find_wildcard_by_value_result (fun x => x <? 2) [0; 1; 5] 2).
  reflexivity.
Defined.

(** X9: on a sequence of byte values and with a predicate on the element,
    [find_wildcard] throws the range error exactly when every byte value
    0..255 occurs in the sequence and is accepted by the predicate. *)
Theorem find_wildcard_by_value_range_error p pat :
  Forall (fun x => 0 <= x < 256) pat ->
  detail.find_wildcard pat (by_value p) tt = Throw range_error
  <-> (forall j, 0 <= j < 256 -> In j pat /\ p j = true).
Proof.
  intros Hr.
  destruct (mark_bits_by_value_defined p pat 0 Hr) as [bits Hm].
  destruct (mark_bits_by_value _ _ _ _ Hm) as [_ Hflag].
  unfold detail.find_wildcard. rewrite Hm. cbn [obind]. split.
  - destruct (detail.first_clear bits 0 256) as [i|] eqn:Hf; [discriminate|].
    intros _ j Hj.
    pose proof (first_clear_none _ _ _ Hf j ltac:(lia)) as Hj1.
    rewrite (Hflag j) in Hj1 by lia. rewrite Z.testbit_0_l in Hj1.
    destruct (existsb (Z.eqb j) pat) eqn:He; [|discriminate].
    split; [by apply existsb_eqb_In|exact Hj1].
  - intros Hall. rewrite first_clear_all_set; [reflexivity|].
    intros j Hj. destruct (Hall j ltac:(lia)) as [Hin Hp].
    rewrite (Hflag j) by lia. apply existsb_eqb_In in Hin.
    by rewrite Hin.
Qed.

Lemma find_wildcard_by_value_range_error_witness :
  detail.find_wildcard [3; 4] (by_value (fun _ => true)) tt
  = Throw range_error
  <-> (forall j, 0 <= j < 256 -> In j [3; 4] /\ (fun _ : Z => true) j = true).
Proof.
  apply (find_wildcard_by_value_range_error (fun _ => true) [3; 4]).
  repeat constructor; lia.
Defined.

(** X10: with a predicate on the element, [find_wildcard] has undefined
    behaviour exactly when some element of the sequence is not a byte
    value 0..255: the element indexes the 256-bit set unchecked. *)
Theorem find_wildcard_by_value_undefined p pat :
  detail.find_wildcard pat (by_value p) tt = Undefined
  <-> ~ Forall (fun x => 0 <= x < 256) pat.
Proof.
  unfold detail.find_wildcard. split.
  - intros H Hr.
    destruct (mark_bits_by_value_defined p pat 0 Hr) as [bits Hm].
    rewrite Hm in H. cbn [obind] in H.
    by destruct (detail.first_clear bits 0 256).
  - intros Hr.
    destruct (detail.mark_bits (by_value p) tt pat 0) as [bits|e|] eqn:Hm.
    + destruct Hr. exact (proj1 (mark_bits_by_value _ _ _ _ Hm)).
    + destruct (mark_bits_by_value_no_throw _ _ _ _ Hm).
    + reflexivity.
Qed.

(** ** Search on constructed Patterns *)

Lemma byte_match_to_uchar w x y :
  byte_match w (to_uchar x) y = byte_match w x y.
Proof. unfold byte_match. by rewrite to_uchar_idemp. Qed.

Lemma scan_window_to_uchar w pat : forall buf,
  scan_window (byte_match w) (map to_uchar buf) pat
  = scan_window (byte_match w) buf pat.
Proof.
  induction pat as [|y pat IH]; intros buf; [reflexivity|].
  destruct buf as [|x buf]; [reflexivity|]. cbn [map scan_window].
  rewrite byte_match_to_uchar. by rewrite IH.
Qed.

Lemma std_search_to_uchar w pat buf :
  std_search (byte_match w) (map to_uchar buf) pat
  = std_search (byte_match w) buf pat.
Proof.
  induction buf as [|x buf IH].
  - reflexivity.
  - change (std_search (byte_match w) (map to_uchar (x :: buf)) pat)
      with (match scan_window (byte_match w) (map to_uchar (x :: buf)) pat with
            | Hit => O
            | Exhausted => length (map to_uchar (x :: buf))
            | Miss => S (std_search (byte_match w) (map to_uchar buf) pat)
            end).
    rewrite (scan_window_to_uchar w pat (x :: buf)), IH, length_map.
    reflexivity.
Qed.

(** X14: [find] looks at the buffer through [unsigned char]: on every
    object and every buffer it behaves as on the buffer with each element
    reduced modulo 256. *)
Theorem find_buffer_modulo_256 this buf s :
  find this (map to_uchar buf) s = find this buf s.
Proof.
  unfold find, bind. destruct (get_obj this s) as [[o| |] s1]; try reflexivity.
  destruct (ptr_eqb (_pattern o) (_end o)).
  - unfold ret. by rewrite length_map.
  - destruct (read_range (_pattern o) (_end o) s1) as [[pat| |] s2];
      try reflexivity.
    unfold ret. by rewrite std_search_to_uchar.
Qed.

(** X15: a buffer that contains the bytes of a non-empty wildcard-tagged
    literal is never reported as not found: [find] returns a position at or
    before that occurrence, with the whole window inside the buffer. *)
Theorem find_literal_present this pat w s pre post :
  pat <> [] ->
  exists k,
    fst (find this (pre ++ map to_uchar pat ++ post)
           (snd (ctor_wildcard this pat w s))) = Ok k
    /\ (k <= length pre)%nat
    /\ (k + length pat <= length (pre ++ map to_uchar pat ++ post))%nat.
Proof.
  intros Hne. rewrite ctor_wildcard_spec. cbn [snd].
  set (bs := map to_uchar pat). set (buf := pre ++ bs ++ post).
  assert (Hbs : bs <> []) by (subst bs; by destruct pat).
  rewrite (find_pattern_of _ _ _ _ buf (pattern_of_built s this bs _)).
  cbn [fst]. exists (find_value bs (to_uchar w) buf).
  split; [reflexivity|].
  assert (Hhere : window_at (to_uchar w) buf bs (length pre)).
  { split; [subst buf; rewrite !length_app; lia|].
    intros i y Hy. exists y. split.
    - subst buf. rewrite lookup_app_r by lia.
      replace (length pre + i - length pre)%nat with i by lia.
      by apply lookup_app_l_Some.
    - left. subst bs.
      apply list_elem_of_lookup_2, list_elem_of_In, in_map_iff in Hy
        as (x & <- & _).
      by rewrite to_uchar_idemp. }
  destruct (find_value_spec bs (to_uchar w) buf Hbs) as [_ Hk].
  destruct Hk as [[[Hfit _] Hfirst]|[_ Hnone]].
  - split.
    + destruct (Nat.le_gt_cases (find_value bs (to_uchar w) buf) (length pre))
        as [Hle|Hgt]; [exact Hle|].
      destruct (Hfirst _ Hgt Hhere).
    + subst bs. by rewrite length_map in Hfit.
  - destruct (Hnone _ Hhere).
Qed.

Lemma find_literal_present_witness :
  exists k,
    fst (find 0 ([1; 2] ++ map to_uchar [72; 105] ++ [3])
           (snd (ctor_wildcard 0 [72; 105] 63 empty_state))) = Ok k
    /\ (k <= 2)%nat
    /\ (k + 2 <= 5)%nat.
Proof.
  apply (find_literal_present 0%nat [72; 105] 63 empty_state [1; 2] [3]).
  discriminate.
Defined.

Lemma map_to_uchar_replicate n w :
  map to_uchar (replicate n w) = replicate n (to_uchar w).
Proof. induction n as [|n IH]; [reflexivity|]. simpl. by rewrite IH. Qed.

(** X16: a Pattern made of wildcard bytes only matches at the start of
    every buffer that is long enough, and nowhere in a shorter one. *)
Theorem find_all_wildcards this n w s buf :
  (0 < n)%nat ->
  fst (find this buf (snd (ctor_wildcard this (replicate n w) w s)))
  = Ok (if (n <=? length buf)%nat then O else length buf).
Proof.
  intros Hn. rewrite ctor_wildcard_spec. cbn [snd].
  rewrite map_to_uchar_replicate.
  set (bs := replicate n (to_uchar w)).
  assert (Hlen : length bs = n) by apply length_replicate.
  assert (Hbs : bs <> []) by (intros H; rewrite H in Hlen; simpl in Hlen; lia).
  rewrite (find_pattern_of _ _ _ _ buf (pattern_of_built s this bs _)).
  cbn [fst]. f_equal.
  destruct (find_value_spec bs (to_uchar w) buf Hbs) as [_ Hk].
  destruct (Nat.leb_spec n (length buf)) as [Hfit|Hshort].
  - assert (Hhere : window_at (to_uchar w) buf bs 0).
    { split; [lia|]. intros i y Hy.
      apply lookup_replicate in Hy as [-> Hi].
      destruct (lookup_lt_is_Some_2 buf (0 + i) ltac:(lia)) as [b Hb].
      exists b. split; [exact Hb|by right]. }
    destruct Hk as [[_ Hfirst]|[_ Hnone]]; [|destruct (Hnone _ Hhere)].
    destruct (find_value bs (to_uchar w) buf) as [|k] eqn:Hv; [reflexivity|].
    destruct (Hfirst O ltac:(lia) Hhere).
  - destruct Hk as [[[Hfit _] _]|[Hend _]]; [lia|exact Hend].
Qed.

Lemma find_all_wildcards_witness :
  fst (find 0 [7; 8; 9]
         (snd (ctor_wildcard 0 (replicate 2 63) 63 empty_state)))
  = Ok O.
Proof.
  apply (find_all_wildcards 0%nat 2%nat 63 empty_state [7; 8; 9]). lia.
Defined.

(** X17: [size()] of a wildcard-constructed Pattern is the length of its
    literal and [size()] of a default-constructed one is 0; neither call
    changes the state. *)
Theorem size_after_construction this pat w s :
  size this (snd (ctor_wildcard this pat w s))
  = (Ok (Z.of_nat (length pat)), snd (ctor_wildcard this pat w s))
  /\ size this (snd (ctor_default this s))
     = (Ok 0, snd (ctor_default this s)).
Proof.
  split.
  - rewrite ctor_wildcard_spec. cbn [snd].
    rewrite (size_ok _ _ _ _ (pattern_of_built s this _ _)).
    by rewrite length_map.
  - by rewrite (size_ok _ _ _ _ (ctor_default_spec this s)).
Qed.

(** X18: Patterns do not interfere: constructing another object from a
    literal, or copy-constructing another object from any Pattern, leaves
    the result of [find] on an existing Pattern as it was. *)
Theorem find_unaffected_by_construction a b c v u pat w s buf :
  a <> b -> b <> c ->
  pattern_of s a = Some v ->
  pattern_of s c = Some u ->
  fst (find a buf (snd (ctor_wildcard b pat w s))) = fst (find a buf s)
  /\ fst (find a buf (snd (copy_ctor b c s))) = fst (find a buf s).
Proof.
  intros Hab Hbc Ha Hc. destruct v as [bs wa], u as [cs wc].
  rewrite ctor_wildcard_spec, (copy_ctor_spec b c cs wc s Hbc Hc).
  cbn [snd].
  rewrite (find_pattern_of _ _ _ _ buf Ha).
  by rewrite !(find_pattern_of _ _ _ _ buf
                 (pattern_of_built_other s b _ _ a (bs, wa) Hab Ha)).
Qed.

Lemma find_unaffected_by_construction_witness :
  fst (find 0 [1; 65; 66]
         (snd (ctor_wildcard 1 [9] 0
                 (snd (ctor_wildcard 0 [65; 66] 63 empty_state)))))
  = fst (find 0 [1; 65; 66] (snd (ctor_wildcard 0 [65; 66] 63 empty_state)))
  /\ fst (find 0 [1; 65; 66]
            (snd (copy_ctor 1 0
                    (snd (ctor_wildcard 0 [65; 66] 63 empty_state)))))
     = fst (find 0 [1; 65; 66]
              (snd (ctor_wildcard 0 [65; 66] 63 empty_state))).
Proof.
  apply (find_unaffected_by_construction 0%nat 1%nat 0%nat ([65; 66], 63)
           ([65; 66], 63) [9] 0
           (snd (ctor_wildcard 0 [65; 66] 63 empty_state)) [1; 65; 66]).
  - discriminate.
  - discriminate.
  - reflexivity.
  - reflexivity.
Defined.

(** ** Resources of copies *)

(** X19: copy assignment between two Patterns that own different arrays
    allocates exactly one array, releases the array the target owned
    before, and leaves the source object as it was. *)
Theorem copy_assign_resources this other v v' s :
  this <> other ->
  pattern_of s other = Some v ->
  pattern_of s this = Some v' ->
  (forall c, buffer_of s this = Some c -> buffer_of s other <> Some c) ->
  fst (copy_assign this other s) = Ok tt
  /\ length (heap (snd (copy_assign this other s))) = S (length (heap s))
  /\ (forall c, buffer_of s this = Some c ->
        heap (snd (copy_assign this other s)) !! c = Some None)
  /\ objs (snd (copy_assign this other s)) !! other = objs s !! other.
Proof.
  intros Hne H Ht Hsep. destruct v as [bs w], v' as [bt wt].
  destruct (pattern_of_inv _ _ _ _ Ht) as (t & Hto & _ & _).
  rewrite (copy_assign_spec this other t bs w _ s Hne H Ht Hto Hsep).
  cbn [fst snd heap objs].
  split; [reflexivity|]. split; [|split].
  - destruct (_pattern t); cbn [released];
      rewrite ?length_insert, length_app; simpl; lia.
  - intros c Hc.
    pose proof (buffer_of_live s this (bt, wt) c Ht Hc) as Hlt.
    unfold buffer_of in Hc. rewrite Hto in Hc.
    destruct (_pattern t) as [|b off]; [discriminate|]. injection Hc as ->.
    cbn [released]. apply list_lookup_insert_eq. rewrite length_app. lia.
  - by apply lookup_insert_ne.
Qed.

Lemma copy_assign_resources_witness :
  fst (copy_assign 1 0
         (snd (ctor_wildcard 1 [9] 0
                 (snd (ctor_wildcard 0 [65; 63] 63 empty_state))))) = Ok tt
  /\ length
       (heap
          (snd (copy_assign 1 0
                  (snd (ctor_wildcard 1 [9] 0
                          (snd (ctor_wildcard 0 [65; 63] 63 empty_state)))))))
     = S (length
            (heap
               (snd (ctor_wildcard 1 [9] 0
                       (snd (ctor_wildcard 0 [65; 63] 63 empty_state))))))
  /\ (forall c,
        buffer_of
          (snd (ctor_wildcard 1 [9] 0
                  (snd (ctor_wildcard 0 [65; 63] 63 empty_state)))) 1
        = Some c ->
        heap
          (snd (copy_assign 1 0
                  (snd (ctor_wildcard 1 [9] 0
                          (snd (ctor_wildcard 0 [65; 63] 63 empty_state))))))
          !! c = Some None)
  /\ objs
       (snd (copy_assign 1 0
               (snd (ctor_wildcard 1 [9] 0
                       (snd (ctor_wildcard 0 [65; 63] 63 empty_state))))))
       !! 0%nat
     = objs
         (snd (ctor_wildcard 1 [9] 0
                 (snd (ctor_wildcard 0 [65; 63] 63 empty_state)))) !! 0%nat.
Proof.
  apply (copy_assign_resources 1%nat 0%nat ([65; 63], 63) ([9], 0)
           (snd (ctor_wildcard 1 [9] 0
                   (snd (ctor_wildcard 0 [65; 63] 63 empty_state))))).
  - discriminate.
  - reflexivity.
  - reflexivity.
  - intros c Hc. vm_compute in Hc. injection Hc as <-.
    vm_compute. discriminate.
Defined.

(** X20: the copy of a default-constructed Pattern is an empty Pattern with
    wildcard 0 that owns a fresh array of no cells, where the original owns
    none; [find] on the copy returns the buffer's end. *)
Theorem copy_of_default this other s buf :
  this <> other ->
  fst (copy_ctor this other (snd (ctor_default other s))) = Ok tt
  /\ pattern_of (snd (copy_ctor this other (snd (ctor_default other s)))) this
     = Some ([], 0)
  /\ buffer_of (snd (copy_ctor this other (snd (ctor_default other s)))) this
     = Some (length (heap s))
  /\ buffer_of (snd (copy_ctor this other (snd (ctor_default other s)))) other
     = None
  /\ fst (find this buf
            (snd (copy_ctor this other (snd (ctor_default other s)))))
     = Ok (length buf).
Proof.
  intros Hne.
  pose proof (ctor_default_spec other s) as Hd.
  rewrite (copy_ctor_spec this other [] 0 _ Hne Hd). cbn [fst snd].
  split; [reflexivity|]. split; [apply pattern_of_built|].
  split; [by rewrite buffer_of_built|]. split.
  - rewrite buffer_of_built_other by congruence.
    unfold buffer_of, ctor_default, put_obj. cbn [snd objs].
    by rewrite lookup_insert_eq.
  - by rewrite (find_pattern_of _ _ _ _ buf (pattern_of_built _ this [] 0)).
Qed.

Lemma copy_of_default_witness :
  fst (copy_ctor 1 0 (snd (ctor_default 0 empty_state))) = Ok tt
  /\ pattern_of (snd (copy_ctor 1 0 (snd (ctor_default 0 empty_state)))) 1
     = Some ([], 0)
  /\ buffer_of (snd (copy_ctor 1 0 (snd (ctor_default 0 empty_state)))) 1
     = Some (length (heap empty_state))
  /\ buffer_of (snd (copy_ctor 1 0 (snd (ctor_default 0 empty_state)))) 0
     = None
  /\ fst (find 1 [7; 8] (snd (copy_ctor 1 0 (snd (ctor_default 0 empty_state)))))
     = Ok (length [7; 8]).
Proof.
  apply (copy_of_default 1%nat 0%nat empty_state [7; 8]). discriminate.
Defined.
